(** * Pypable.typing: class extension and relaxed [isinstance]

    A shallow embedding of [src/Pypable/typing.py].  Python objects that the
    module handles are values of [pyobj]; class objects live in a heap and are
    compared by address, as [is] does; the namespaces of loaded modules are
    finite maps from names to objects; a raised exception is a [Raise] result.

    Python semantics the module relies on ([str.title], [issubclass],
    [builtins.isinstance], [typing.get_origin], [type(name, bases, dict)],
    keyword binding of a call) are modelled in the first part, as CPython 3.11
    has them, the five functions of the module in the second, the properties
    in the third.

    The objects of the model are plain ones.  Its classes have [type] as their
    metaclass, so that instance and subclass tests on them go by resolution
    order, and no [__slots__]; iterating an object yields finitely many
    elements without raising, or is refused; strings are byte strings and
    character tests are those of ASCII. *)

From Stdlib Require Import ZArith Ascii String.
From stdpp Require Import base option list gmap strings.

Set Warnings "-register-all".

(** ** Objects *)

(** The address of a class object in the heap. *)
Definition cid := nat.

Inductive pyobj :=
| PNone
| PInt (z : Z)
| PStr (s : string)
| PTuple (xs : list pyobj)
| PList (xs : list pyobj)
| PDict (kvs : list (string * pyobj))
| PClass (c : cid)                                  (* a class object *)
| PFunc (module : option string) (qualname name : string)  (* a function *)
| PInst (c : cid) (items : option (list pyobj)).     (* any other instance of
                                   class [c]; [items] is what iterating it yields *)

(** ** Exceptions and results *)

Inductive type_error :=
| UnexpectedKeyword (name : string)   (* f() got an unexpected keyword argument *)
| MultipleValues (name : string)      (* f() got multiple values for argument *)
| Arg1NotAClass                       (* issubclass() arg 1 must be a class *)
| BaseNotAClass                       (* type() is given a base that is no class *)
| Arg2NotAType                        (* isinstance() arg 2 must be a type or tuple of types *)
| NotIterable                         (* object is not iterable *)
| NamespaceNotADict                   (* type() argument 3 must be dict *)
| BaseNotAcceptable                   (* type is not an acceptable base type *)
| LayoutConflict                      (* multiple bases have instance lay-out conflict *)
| QualnameNotAStr                     (* type __qualname__ must be a str *)
| DuplicateBase                       (* duplicate base class *)
| InconsistentMRO                     (* cannot create a consistent method resolution order *)
| PlainGeneric                        (* cannot inherit from plain Generic *)
| Unhashable                          (* unhashable type *)
| BadOperand.                         (* operand of a type the operator does not take *)

Inductive exn :=
| KeyError (key : string)
| KeyErrorOf (key : pyobj)            (* KeyError for a key that is no string *)
| AttributeError (attr : string)
| TypeError (why : type_error).

Inductive result (A : Type) :=
| Ok (a : A)
| Raise (e : exn).

Arguments Ok {A} a.
Arguments Raise {A} e.

Definition rbind {A B} (r : result A) (k : A → result B) : result B :=
  match r with
  | Ok a => k a
  | Raise e => Raise e
  end.

Notation "x ←r e ; k" := (rbind e (fun x => k))
  (at level 100, e at next level, k at level 200, right associativity,
   format "'[v' x  ←r  e ;  '/' k ']'").

(** [any(f(x) for x in l)] and [all(f(x) for x in l)]: the generator is
    consumed from the left and stops at the first decisive element, so a later
    element that would raise is never evaluated. *)
Fixpoint any_r {A} (f : A → result bool) (l : list A) : result bool :=
  match l with
  | [] => Ok false
  | x :: l' => b ←r f x; if b : bool then Ok true else any_r f l'
  end.

Fixpoint all_r {A} (f : A → result bool) (l : list A) : result bool :=
  match l with
  | [] => Ok true
  | x :: l' => b ←r f x; if b : bool then all_r f l' else Ok false
  end.

(** ** Strings *)

Definition is_upper (c : ascii) : bool :=
  let n := nat_of_ascii c in (65 <=? n)%nat && (n <=? 90)%nat.

Definition is_lower (c : ascii) : bool :=
  let n := nat_of_ascii c in (97 <=? n)%nat && (n <=? 122)%nat.

Definition is_cased (c : ascii) : bool := is_upper c || is_lower c.

Definition to_upper (c : ascii) : ascii :=
  if is_lower c then ascii_of_nat (nat_of_ascii c - 32) else c.

Definition to_lower (c : ascii) : ascii :=
  if is_upper c then ascii_of_nat (nat_of_ascii c + 32) else c.

(** [str.title()] on ASCII text: a letter that follows a letter is lowered,
    any other letter is raised, everything else is kept.  On text with other
    characters [str.title()] goes by their Unicode case, which this byte-wise
    function does not know: it is [str.title()] on [ascii_text] only. *)
Fixpoint title_from (previous_is_cased : bool) (s : string) : string :=
  match s with
  | EmptyString => EmptyString
  | String c s' =>
      String (if previous_is_cased then to_lower c else to_upper c)
             (title_from (is_cased c) s')
  end.

Definition title (s : string) : string := title_from false s.

(** Text made of ASCII characters only. *)
Definition ascii_text (s : string) : bool :=
  forallb (fun c => (nat_of_ascii c <? 128)%nat) (list_ascii_of_string s).

(** [str.capitalize()]: the first character raised, all the others lowered. *)
Fixpoint lower (s : string) : string :=
  match s with
  | EmptyString => EmptyString
  | String c s' => String (to_lower c) (lower s')
  end.

Definition capitalize (s : string) : string :=
  match s with
  | EmptyString => EmptyString
  | String c s' => String (to_upper c) (lower s')
  end.

(** [''.join(l)] *)
Definition join (l : list string) : string := foldr String.append EmptyString l.

(** [s.split(sep, 1)[0]]: what precedes the first occurrence of [sep]. *)
Fixpoint split_head (sep s : string) : string :=
  match s with
  | EmptyString => EmptyString
  | String c s' =>
      if String.prefix sep s then EmptyString else String c (split_head sep s')
  end.

(** [s.rsplit('.', 1)[0]]: what precedes the last dot, the whole of [s] when
    it has none. *)
Fixpoint before_last_dot (s : string) : option string :=
  match s with
  | EmptyString => None
  | String c s' =>
      match before_last_dot s' with
      | Some p => Some (String c p)
      | None => if Ascii.eqb c "." then Some EmptyString else None
      end
  end.

Definition rsplit_head (s : string) : string := default s (before_last_dot s).

(** ** Classes and type specifications *)

(** What [typ] can be in [isinstance(obj, typ)]: a class; a tuple or list; a
    subscripted form [origin[args]] such as [list[int]], [Sequence[str]] or
    [Union[int, str]]; a bare alias of [typing] such as [typing.List] or
    [typing.Callable], which has an origin and no arguments; a union written
    [X | Y]; the class [types.UnionType] of such unions, of which the model
    has no instance; or an object that instance checks refuse, such as the
    special forms [Union] and [Literal] of [typing]. *)
Inductive typespec :=
| TClass (c : cid)
| TSpecial (name : string)
| TTuple (ts : list typespec)
| TList (ts : list typespec)
| TSubscript (origin : typespec) (args : list typespec)
| TBare (origin : typespec)
| TOr (args : list typespec)
| TUnionType.

Record class_obj := {
  c_name : string;                 (* __name__ *)
  c_qualname : string;             (* __qualname__ *)
  c_module : option pyobj;         (* __module__, when the class has one: a
                                      string, unless the namespace given to
                                      type() said otherwise *)
  c_heap : bool;                   (* made by a class statement or type():
                                      __module__ is then an entry of the class
                                      namespace and instances inherit it *)
  c_bases : list cid;              (* __bases__ *)
  c_mro : list cid;                (* __mro__, the class itself first *)
  c_dict : list (string * pyobj)   (* the namespace type() was given *)
}.

(** A snapshot of the interpreter: the class objects allocated so far, the
    attributes of the module [Pypable.typing] itself, and the other entries of
    [sys.modules]. *)
Record runtime := {
  classes : list class_obj;
  frame : gmap string pyobj;
  imported : gmap string (gmap string pyobj)
}.

(** [__name__] inside the module. *)
Definition this_module : string := "Pypable.typing".

Definition sys_modules (rt : runtime) : gmap string (gmap string pyobj) :=
  <[this_module := frame rt]> (imported rt).

(** The built-in classes, and [typing.Generic], sit at fixed addresses. *)
Definition object_cid : cid := 0.
Definition type_cid : cid := 1.
Definition int_cid : cid := 2.
Definition str_cid : cid := 3.
Definition tuple_cid : cid := 4.
Definition list_cid : cid := 5.
Definition dict_cid : cid := 6.
Definition NoneType_cid : cid := 7.
Definition function_cid : cid := 8.
Definition Generic_cid : cid := 9.

Definition builtin_class (name : string) (self : cid) : class_obj :=
  {| c_name := name; c_qualname := name; c_module := Some (PStr "builtins");
     c_heap := false;
     c_bases := if Nat.eqb self object_cid then [] else [object_cid];
     c_mro := if Nat.eqb self object_cid then [self] else [self; object_cid];
     c_dict := [] |}.

Definition builtin_classes : list class_obj :=
  [ builtin_class "object" object_cid; builtin_class "type" type_cid;
    builtin_class "int" int_cid; builtin_class "str" str_cid;
    builtin_class "tuple" tuple_cid; builtin_class "list" list_cid;
    builtin_class "dict" dict_cid; builtin_class "NoneType" NoneType_cid;
    builtin_class "function" function_cid ].

(** The class stored at an address; an address beyond the heap, which no
    object of a well-formed runtime holds, reads as a nameless class. *)
Definition no_class : class_obj :=
  {| c_name := EmptyString; c_qualname := EmptyString; c_module := None; c_heap := false;
     c_bases := []; c_mro := []; c_dict := [] |}.

Definition class_at (rt : runtime) (c : cid) : class_obj :=
  default no_class (classes rt !! c).

(** [obj.__class__] *)
Definition type_of (o : pyobj) : cid :=
  match o with
  | PNone => NoneType_cid
  | PInt _ => int_cid
  | PStr _ => str_cid
  | PTuple _ => tuple_cid
  | PList _ => list_cid
  | PDict _ => dict_cid
  | PClass _ => type_cid
  | PFunc _ _ _ => function_cid
  | PInst c _ => c
  end.

(** [iter(obj)]: the elements in order, [None] for an object that cannot be
    iterated.  A string yields its characters, a dict its keys.  An iteration
    that raises part of the way, as that of a closed file does, is none the
    model has. *)
Fixpoint chars (s : string) : list pyobj :=
  match s with
  | EmptyString => []
  | String c s' => PStr (String c EmptyString) :: chars s'
  end.

Definition iter (o : pyobj) : option (list pyobj) :=
  match o with
  | PStr s => Some (chars s)
  | PTuple xs | PList xs => Some xs
  | PDict kvs => Some (map (fun kv => PStr (fst kv)) kvs)
  | PInst _ items => items
  | PNone | PInt _ | PClass _ | PFunc _ _ _ => None
  end.

(** Truth value of an object, as [or] tests it. *)
Definition truthy (o : pyobj) : bool :=
  match o with
  | PNone => false
  | PInt z => negb (Z.eqb z 0)
  | PStr s => negb (String.eqb s EmptyString)
  | PTuple xs | PList xs => negb (Nat.eqb (length xs) 0)
  | PDict kvs => negb (Nat.eqb (length kvs) 0)
  | PClass _ | PFunc _ _ _ | PInst _ _ => true
  end.

(** [hash(obj)] succeeds: lists and dicts, and tuples that hold one, have no
    hash. *)
Fixpoint hashable (o : pyobj) : bool :=
  match o with
  | PList _ | PDict _ => false
  | PTuple xs => forallb hashable xs
  | _ => true
  end.

(** [issubclass(c, m)] for classes: [m] is in the resolution order of [c]. *)
Definition issubclass1 (rt : runtime) (c m : cid) : bool :=
  bool_decide (m ∈ c_mro (class_at rt c)).

(** [issubclass(c, ms)] for a tuple of classes: true as soon as one fits. *)
Definition issubclass (rt : runtime) (c : cid) (ms : list cid) : bool :=
  existsb (issubclass1 rt c) ms.

(** [get_origin(typ) is Union] *)
Definition is_Union (origin : typespec) : bool :=
  match origin with
  | TSpecial name => String.eqb name "Union"
  | _ => false
  end.

(** What a union asks of each of its members: whether the class of the
    object derives from it.  A member is a class or a bare alias of one; a
    subscripted member is refused. *)
Definition subclass_member (rt : runtime) (c : cid) (t : typespec) : result bool :=
  match t with
  | TClass k | TBare (TClass k) => Ok (issubclass1 rt c k)
  | TUnionType => Ok false
  | _ => Raise (TypeError Arg2NotAType)
  end.

(** [builtins.isinstance(obj, t)]: [t] is a class, a bare alias of a class, a
    tuple (of tuples) of such, tried from the left, or, since Python 3.10, a
    union, whose members are tried from the left; a list, another subscripted
    form or a special form raises.  Instance checks are by resolution order:
    classes that answer through [__instancecheck__], or refuse to, as
    [typing.Any] and the protocols that are not runtime-checkable do, are not
    among the classes of the model. *)
Fixpoint builtin_isinstance (rt : runtime) (obj : pyobj) (t : typespec)
  : result bool :=
  match t with
  | TClass c => Ok (issubclass1 rt (type_of obj) c)
  | TUnionType => Ok false
  | TTuple ts =>
      (fix go (ts : list typespec) : result bool :=
         match ts with
         | [] => Ok false
         | t' :: ts' =>
             b ←r builtin_isinstance rt obj t';
             if b : bool then Ok true else go ts'
         end) ts
  | TSubscript origin args =>
      if is_Union origin then any_r (subclass_member rt (type_of obj)) args
      else Raise (TypeError Arg2NotAType)
  | TOr args => any_r (subclass_member rt (type_of obj)) args
  | TBare origin => subclass_member rt (type_of obj) (TBare origin)
  | TSpecial _ | TList _ => Raise (TypeError Arg2NotAType)
  end.

(** ** Class creation *)

(** The C3 merge of the resolution orders of the bases: repeatedly take the
    first head that occurs in the tail of no sequence. *)
Definition in_no_tail (h : cid) (seqs : list (list cid)) : bool :=
  forallb (fun s => negb (bool_decide (h ∈ tail s))) seqs.

Definition next_head (seqs : list (list cid)) : option cid :=
  find (fun h => in_no_tail h seqs) (omap head seqs).

Definition drop_head (h : cid) (s : list cid) : list cid :=
  match s with
  | x :: s' => if Nat.eqb x h then s' else s
  | [] => []
  end.

Definition nonempty (s : list cid) : bool :=
  match s with [] => false | _ => true end.

Fixpoint merge (fuel : nat) (seqs : list (list cid)) : option (list cid) :=
  match fuel with
  | O => None
  | S fuel' =>
      match List.filter nonempty seqs with
      | [] => Some []
      | live =>
          match next_head live with
          | None => None
          | Some h => cons h <$> merge fuel' (map (drop_head h) live)
          end
      end
  end.

Definition total_length (seqs : list (list cid)) : nat :=
  foldr (fun s n => length s + n) 0 seqs.

(** The resolution order below a new class with the given bases. *)
Definition linearize (rt : runtime) (bases : list cid) : option (list cid) :=
  let seqs := map (fun b => c_mro (class_at rt b)) bases ++ [bases] in
  merge (S (total_length seqs)) seqs.

(** Lookup in the entries of a dict. *)
Fixpoint dict_get (kvs : list (string * pyobj)) (k : string) : option pyobj :=
  match kvs with
  | [] => None
  | (k', v) :: kvs' => if String.eqb k' k then Some v else dict_get kvs' k
  end.

(** The built-in classes that cannot be subclassed, and those whose instances
    have a lay-out of their own, which a subclass inherits. *)
Definition final_classes : list cid := [NoneType_cid; function_cid].

Definition layout_classes : list cid :=
  [type_cid; int_cid; str_cid; tuple_cid; list_cid; dict_cid].

Definition solid_base (rt : runtime) (b : cid) : option cid :=
  find (fun k => bool_decide (k ∈ layout_classes)) (c_mro (class_at rt b)).

(** The first pass of [type()] over the bases, from the left: a base must be
    open to subclassing, and the lay-outs the bases bring must be one and the
    same.  The answer is the refusal, if any. *)
Fixpoint best_base (rt : runtime) (winner : option cid) (bases : list cid)
  : option type_error :=
  match bases with
  | [] => None
  | b :: rest =>
      if bool_decide (b ∈ final_classes) then Some BaseNotAcceptable
      else
        match solid_base rt b, winner with
        | Some s, Some w =>
            if Nat.eqb s w then best_base rt winner rest else Some LayoutConflict
        | Some s, None => best_base rt (Some s) rest
        | None, _ => best_base rt winner rest
        end
  end.

(** A [__qualname__] in the namespace must be a string. *)
Definition qualname_refusal (kvs : list (string * pyobj)) : option type_error :=
  match dict_get kvs "__qualname__" with
  | Some (PStr _) | None => None
  | Some _ => Some QualnameNotAStr
  end.

(** [Generic.__init_subclass__], which runs on a new class that derives from
    [typing.Generic]: [Generic] cannot be a base as such.  With an
    [__orig_bases__] entry in the namespace the test is made on that entry
    instead.  (The hook exempts a class named [Protocol]; the classes made
    here are named after their bases, [Generic] among them.) *)
Definition is_Generic (o : pyobj) : bool :=
  match o with
  | PClass c => Nat.eqb c Generic_cid
  | _ => false
  end.

Definition generic_hook (bases below : list cid) (kvs : list (string * pyobj))
  : option type_error :=
  if bool_decide (Generic_cid ∈ below) then
    match dict_get kvs "__orig_bases__" with
    | None =>
        if bool_decide (Generic_cid ∈ bases) then Some PlainGeneric else None
    | Some (PTuple xs) | Some (PList xs) =>
        if existsb is_Generic xs then Some PlainGeneric else None
    | Some (PDict _) => None
    | Some (PStr _) => Some BadOperand
    | Some _ => Some NotIterable
    end
  else None.

(** The class object [type(name, bases, ns)] makes when called from the
    module: it takes [__qualname__] and [__module__] from the namespace when
    the namespace has them, whatever [__module__] is there, and otherwise its
    name and the calling module. *)
Definition new_class (self : cid) (name : string) (bases below : list cid)
    (kvs : list (string * pyobj)) : class_obj :=
  {| c_name := name;
     c_qualname := match dict_get kvs "__qualname__" with
                   | Some (PStr q) => q
                   | _ => name
                   end;
     c_module := match dict_get kvs "__module__" with
                 | Some m => Some m
                 | None => Some (PStr this_module)
                 end;
     c_heap := true;
     c_bases := bases;
     c_mro := self :: below;
     c_dict := kvs |}.

Definition allocate (rt : runtime) (cls : class_obj) : runtime :=
  {| classes := classes rt ++ [cls]; frame := frame rt; imported := imported rt |}.

(** [type(name, bases, ns)] with at least one base: allocates a class object
    at the next free address.  It is refused, in this order, when [ns] is not
    a dict, when a base is not open to subclassing or two bases differ in
    lay-out, when [__qualname__] is not a string, when a base is repeated,
    when the bases have no common resolution order, and by the hook of
    [Generic].  What else [type()] does is outside the model: the new class
    joins the [__subclasses__()] of its bases, and bases with [__slots__], a
    metaclass or hooks of their own can refuse it. *)
Definition type_new (rt : runtime) (name : string) (bases : list cid)
    (ns : pyobj) : result (runtime * cid) :=
  match ns with
  | PDict kvs =>
      match best_base rt None bases, qualname_refusal kvs with
      | Some why, _ | None, Some why => Raise (TypeError why)
      | None, None =>
          if bool_decide (NoDup bases) then
            match linearize rt bases with
            | Some below =>
                match generic_hook bases below kvs with
                | Some why => Raise (TypeError why)
                | None =>
                    let self := length (classes rt) in
                    Ok (allocate rt (new_class self name bases below kvs), self)
                end
            | None => Raise (TypeError InconsistentMRO)
            end
          else Raise (TypeError DuplicateBase)
      end
  | _ => Raise (TypeError NamespaceNotADict)
  end.

(** ** The module *)

(** [get_parent_class]: attribute access on the objects of the model.
    A class has [__qualname__] and, usually, [__module__]; a function has
    both, and its [__module__] may be [None]; an instance finds [__module__]
    in the first class of its resolution order that was made by a class
    statement or by [type()] and has one, and has no [__qualname__]. *)
Definition attr_module (rt : runtime) (o : pyobj) : option pyobj :=
  match o with
  | PClass c => c_module (class_at rt c)
  | PFunc m _ _ => Some (from_option PStr PNone m)
  | PInst c _ =>
      head (omap (fun k => if c_heap (class_at rt k)
                           then c_module (class_at rt k) else None)
                 (c_mro (class_at rt c)))
  | _ => None
  end.

Definition attr_qualname (rt : runtime) (o : pyobj) : option string :=
  match o with
  | PClass c => Some (c_qualname (class_at rt c))
  | PFunc _ q _ => Some q
  | _ => None
  end.

(** [q.split('.<locals>', 1)[0].rsplit('.', 1)[0]] *)
Definition class_name_of (q : string) : string :=
  rsplit_head (split_head ".<locals>" q).

(** [getattr(module, class_name)] after [module = sys.modules[m]] *)
Definition lookup_in_module (rt : runtime) (m : string) (q : option string)
  : result pyobj :=
  match sys_modules rt !! m with
  | None => Raise (KeyError m)
  | Some module =>
      match q with
      | None => Raise (AttributeError "__qualname__")
      | Some q =>
          match module !! class_name_of q with
          | Some v => Ok v
          | None => Raise (AttributeError (class_name_of q))
          end
      end
  end.

(** The keys of [sys.modules] are strings: a [__module__] that is another
    object is not among them, or cannot be hashed. *)
Definition get_parent_class (rt : runtime) (obj : pyobj) : result pyobj :=
  match attr_module rt obj with
  | Some (PStr m) => lookup_in_module rt m (attr_qualname rt obj)
  | Some PNone | None =>
      match attr_qualname rt obj with
      | Some q => lookup_in_module rt "builtins" (Some q)
      | None => Ok (PClass (type_of obj))
      end
  | Some m => Raise (if hashable m then KeyErrorOf m else TypeError Unhashable)
  end.

(** [{name: obj for name, obj in inspect.getmembers(sys.modules[__name__])
      if inspect.isclass(obj)}] *)
Definition as_class (o : pyobj) : option cid :=
  match o with
  | PClass c => Some c
  | _ => None
  end.

Definition classes_in_frame (rt : runtime) : gmap string cid :=
  omap as_class (frame rt).

(** [''.join(mixin_names) + cls.__name__.title()] *)
Definition extension_name (rt : runtime) (c : cid) (mixins : list cid) : string :=
  let mixin_names := map (fun mixin => title (c_name (class_at rt mixin))) mixins in
  join mixin_names +:+ title (c_name (class_at rt c)).

(** [attrs or {}] *)
Definition attrs_or_empty (attrs : pyobj) : pyobj :=
  if truthy attrs then attrs else PDict [].

(** [extend_class] on an object that is neither a class nor the name of one,
    which the signature does not announce but the code does not exclude:
    [issubclass] refuses it unless there is no mixin to compare with; then a
    function, which has a [__name__], is looked up under that name in title
    case and is refused by [type()] as a base; any other object has no
    [__name__]. *)
Definition extend_non_class (rt : runtime) (cls : pyobj) (mixins : list cid)
  : result (runtime * cid) :=
  match mixins with
  | _ :: _ => Raise (TypeError Arg1NotAClass)
  | [] =>
      match cls with
      | PFunc _ _ name =>
          match classes_in_frame rt !! title name with
          | Some extended => Ok (rt, extended)
          | None => Raise (TypeError BaseNotAClass)
          end
      | _ => Raise (AttributeError "__name__")
      end
  end.

(** [extend_class(cls, *mixins, attrs=attrs)].  The mixins are classes, as
    the signature annotates them.  The [isinstance] of line 78 is the module's
    own, which on the plain class [str] is the built-in one; the strings of the
    model are the [PStr]. *)
Definition extend_class (rt : runtime) (cls : pyobj) (mixins : list cid)
    (attrs : pyobj) : result (runtime * cid) :=
  let classes_in_frame := classes_in_frame rt in
  cls ←r match cls with
         | PStr name =>
             match classes_in_frame !! name with
             | Some c => Ok (PClass c)
             | None => Raise (KeyError name)
             end
         | _ => Ok cls
         end;
  match cls with
  | PClass c =>
      if issubclass rt c mixins then Ok (rt, c)
      else
        let extension_name := extension_name rt c mixins in
        match classes_in_frame !! extension_name with
        | Some extended => Ok (rt, extended)
        | None =>
            type_new rt extension_name (mixins ++ [c]) (attrs_or_empty attrs)
        end
  | _ => extend_non_class rt cls mixins
  end.

(** Binding the keywords of [extend_class(cls, *mixins, **attrs)] to the
    signature [(cls, *mixins, attrs=None)], in the order of the dict: [attrs]
    is the only keyword the signature can still take, [cls] is already given
    by position, any other name is unknown. *)
Fixpoint bind_keywords (kwargs : list (string * pyobj)) (attrs : pyobj)
  : result pyobj :=
  match kwargs with
  | [] => Ok attrs
  | (k, v) :: rest =>
      if String.eqb k "attrs" then bind_keywords rest v
      else if String.eqb k "cls" then Raise (TypeError (MultipleValues "cls"))
      else Raise (TypeError (UnexpectedKeyword k))
  end.

(** Two calls in a row with the same arguments, the second in the runtime
    the first leaves behind: the classes the two calls return. *)
Definition extend_class_twice (rt : runtime) (cls : pyobj) (mixins : list cid)
    (attrs : pyobj) : result (cid * cid) :=
  first ←r extend_class rt cls mixins attrs;
  second ←r extend_class first.1 cls mixins attrs;
  Ok (first.2, second.2).

Section WrapObject.

(** [cls(obj)]: calling the class on the object runs constructors that the
    module does not define. *)
Variable construct : runtime → cid → pyobj → result pyobj.

(** [wrap_object(obj, *mixins, **kwargs)], with the runtime it leaves
    behind.  A keyword named [__obj] collides with the first parameter when
    the call itself is bound. *)
Definition wrap_object (rt : runtime) (obj : pyobj) (mixins : list cid)
    (kwargs : list (string * pyobj)) : runtime * result pyobj :=
  if existsb (fun kv => String.eqb (fst kv) "__obj") kwargs
  then (rt, Raise (TypeError (MultipleValues "__obj")))
  else
    match get_parent_class rt obj with
    | Raise e => (rt, Raise e)
    | Ok cls =>
        match bind_keywords kwargs PNone with
        | Raise e => (rt, Raise e)
        | Ok attrs =>
            match extend_class rt cls mixins attrs with
            | Raise e => (rt, Raise e)
            | Ok (rt', extended) => (rt', construct rt' extended obj)
            end
        end
    end.

End WrapObject.

(** [typing.get_origin] and [typing.get_args]: a subscripted form and a bare
    alias have the origin they were made from, [typing.Generic] is its own
    origin, [X | Y] has [types.UnionType]; any other class, and any object
    that is no type at all, has none. *)
Definition get_origin (typ : typespec) : option typespec :=
  match typ with
  | TSubscript origin _ | TBare origin => Some origin
  | TOr _ => Some TUnionType
  | TClass c => if Nat.eqb c Generic_cid then Some typ else None
  | _ => None
  end.

Definition get_args (typ : typespec) : list typespec :=
  match typ with
  | TSubscript _ args | TOr args => args
  | _ => []
  end.

(** The module's [isinstance(obj, typ)]. *)
Definition isinstance (rt : runtime) (obj : pyobj) (typ : typespec)
  : result bool :=
  match typ with
  | TList ts | TTuple ts => any_r (builtin_isinstance rt obj) ts
  | _ =>
      match get_origin typ with
      | Some origin =>
          if is_Union origin
          then any_r (builtin_isinstance rt obj) (get_args typ)
          else
            b ←r builtin_isinstance rt obj origin;
            if b : bool then
              match iter obj with
              | Some items =>
                  all_r (fun p => builtin_isinstance rt p.1 p.2)
                        (zip items (get_args typ))
              | None => Raise (TypeError NotIterable)
              end
            else Ok false
      | None => builtin_isinstance rt obj typ
      end
  end.

(** [class_path(obj)]: a [__module__] that is not a string fails to
    concatenate at line 133. *)
Definition quiet_modules : list string := ["builtins"; "__builtin__"; "__main__"].

Definition class_path (rt : runtime) (obj : pyobj) : result string :=
  let cls := class_at rt (type_of obj) in
  match c_module cls with
  | Some (PStr module) =>
      if bool_decide (module ∈ quiet_modules) then Ok (c_name cls)
      else Ok (module +:+ "." +:+ c_name cls)
  | Some _ => Raise (TypeError BadOperand)
  | None => Ok (c_name cls)
  end.

(** The open modes of lines 10-17: [get_args] of a [Literal] gives its values
    in the order written, and the two comprehensions run their loops from the
    left. *)
Definition _OpenDirection : list string := ["r"; "w"; "x"; "a"].
Definition _OpenEncoding : list string := ["b"; "t"].
Definition _OpenModifier : list string := ["+"; EmptyString].

Definition _open_modes : list string :=
  (x ← _OpenDirection; z ← _OpenModifier; [x +:+ z]) ++
  (x ← _OpenDirection; y ← _OpenEncoding; z ← _OpenModifier; [x +:+ y +:+ z]).

(** ** A runtime to compute with

    The built-in classes, [typing.Generic] and [typing.IO], the module's own
    [Placeholder], and the classes of two application modules:
<<
    # app.py                            # pkg/mod.py
    class Greeter: ...                  class Foo: ...
    class Logger: ...
    class Person: ...
    class Friendly(Greeter): ...
    class json_mixin: ...
>> *)
Definition user_class (module name : string) (self : cid) (bases : list cid)
    (below : list cid) : class_obj :=
  {| c_name := name; c_qualname := name; c_module := Some (PStr module);
     c_heap := true; c_bases := bases; c_mro := self :: below; c_dict := [] |}.

Definition IO_cid : cid := 10.
Definition Placeholder_cid : cid := 11.
Definition Greeter_cid : cid := 12.
Definition Logger_cid : cid := 13.
Definition Person_cid : cid := 14.
Definition Friendly_cid : cid := 15.
Definition json_mixin_cid : cid := 16.
Definition Foo_cid : cid := 17.

Definition demo_classes : list class_obj :=
  builtin_classes ++
  [ user_class "typing" "Generic" Generic_cid [object_cid] [object_cid];
    user_class "typing" "IO" IO_cid [Generic_cid] [Generic_cid; object_cid];
    user_class this_module "Placeholder" Placeholder_cid [object_cid] [object_cid];
    user_class "app" "Greeter" Greeter_cid [object_cid] [object_cid];
    user_class "app" "Logger" Logger_cid [object_cid] [object_cid];
    user_class "app" "Person" Person_cid [object_cid] [object_cid];
    user_class "app" "Friendly" Friendly_cid [Greeter_cid] [Greeter_cid; object_cid];
    user_class "app" "json_mixin" json_mixin_cid [object_cid] [object_cid];
    user_class "pkg.mod" "Foo" Foo_cid [object_cid] [object_cid] ].

Definition demo_frame : gmap string pyobj :=
  list_to_map
    [ ("__name__", PStr this_module);
      ("IO", PClass IO_cid);
      ("Placeholder", PClass Placeholder_cid);
      ("get_parent_class",
       PFunc (Some this_module) "get_parent_class" "get_parent_class");
      ("extend_class", PFunc (Some this_module) "extend_class" "extend_class") ].

Definition demo_imported : gmap string (gmap string pyobj) :=
  list_to_map
    [ ("builtins",
       list_to_map [ ("object", PClass object_cid); ("type", PClass type_cid);
                     ("int", PClass int_cid); ("str", PClass str_cid);
                     ("tuple", PClass tuple_cid); ("list", PClass list_cid);
                     ("dict", PClass dict_cid) ]);
      ("typing",
       list_to_map [ ("Generic", PClass Generic_cid); ("IO", PClass IO_cid) ]);
      ("app",
       list_to_map [ ("Greeter", PClass Greeter_cid); ("Logger", PClass Logger_cid);
                     ("Person", PClass Person_cid);
                     ("Friendly", PClass Friendly_cid);
                     ("json_mixin", PClass json_mixin_cid) ]);
      ("pkg.mod", list_to_map [ ("Foo", PClass Foo_cid) ]) ].

Definition demo : runtime :=
  {| classes := demo_classes; frame := demo_frame; imported := demo_imported |}.

(** The resolution order of every class of a runtime is the class followed
    by the C3 merge over its bases. *)
Definition resolution_orders_agree (rt : runtime) : bool :=
  forallb (fun self =>
             let cls := class_at rt self in
             bool_decide (Some (c_mro cls) = cons self <$> linearize rt (c_bases cls)))
          (seq 0 (length (classes rt))).

(** [demo] after [extend_class(Person, Greeter)] has created its composite. *)
Definition demo_extended : runtime :=
  allocate demo (new_class 18 "GreeterPerson" [Greeter_cid; Person_cid]
                           [Greeter_cid; Person_cid; object_cid] []).

(** [demo] after [extend_class(Person, Greeter, attrs={'__module__': 5})]. *)
Definition demo_numbered : runtime :=
  allocate demo (new_class 18 "GreeterPerson" [Greeter_cid; Person_cid]
                           [Greeter_cid; Person_cid; object_cid]
                           [("__module__", PInt 5)]).

(** A constructor that accepts any argument and makes a plain instance. *)
Definition plain_construct (rt : runtime) (c : cid) (obj : pyobj) : result pyobj :=
  Ok (PInst c (iter obj)).

(** ** Vocabulary of the properties *)

(** [Union[args]] as a type specification. *)
Definition Union_of (args : list typespec) : typespec :=
  TSubscript (TSpecial "Union") args.

(** The built-in checks a call [isinstance(obj, typ)] of the module can make,
    each an object and what it is checked against: the object against every
    member of a list, tuple or [Union]; against a specification without
    origin; against the origin, and then every element against the parameter
    at its position. *)
Definition checks (obj : pyobj) (typ : typespec) : list (pyobj * typespec) :=
  match typ with
  | TList ts | TTuple ts => pair obj <$> ts
  | _ =>
      match get_origin typ with
      | Some origin =>
          if is_Union origin then pair obj <$> get_args typ
          else (obj, origin) :: zip (default [] (iter obj)) (get_args typ)
      | None => [(obj, typ)]
      end
  end.

(** The answer of a built-in check that ends the call: among the members of
    a list, tuple or [Union] the first check that succeeds does, of the
    checks against an origin and its parameters the first that fails. *)
Definition decisive (typ : typespec) : bool :=
  match typ with
  | TList _ | TTuple _ => true
  | _ =>
      match get_origin typ with
      | Some origin => is_Union origin
      | None => true
      end
  end.

(** The union check as the specification words it: every member is tried
    with the relaxed check itself. *)
Definition isinstance_union_recursive (rt : runtime) (obj : pyobj)
    (args : list typespec) : result bool :=
  any_r (isinstance rt obj) args.

(** The composite name as the specification words it: every name
    capitalized. *)
Definition capitalized_name (rt : runtime) (c : cid) (mixins : list cid) : string :=
  join (map (fun mixin => capitalize (c_name (class_at rt mixin))) mixins)
  +:+ capitalize (c_name (class_at rt c)).



(** A string without the character [c]. *)
Definition lacks (c : ascii) (s : string) : bool :=
  forallb (fun x => negb (Ascii.eqb x c)) (list_ascii_of_string s).

(** The module in which [get_parent_class] looks an object up: the one its
    [__module__] names, [builtins] when it has none or [None]; there is none
    when [__module__] is another object. *)
Definition owning_module (rt : runtime) (obj : pyobj) : option string :=
  match attr_module rt obj with
  | Some (PStr m) => Some m
  | Some PNone | None => Some "builtins"
  | Some _ => None
  end.

(** * Properties *)

(** Closes a decidable goal on concrete data by evaluating its decision. *)
Ltac by_deciding := apply (bool_decide_unpack _); vm_compute; exact I.

(** ** Generators that may raise *)

Section Generators.
Context {A : Type} (f : A → result bool).

(** [any] answers true exactly when some element answers true and all the
    elements before it answered false. *)
Lemma any_r_true (l : list A) :
  any_r f l = Ok true ↔
  ∃ i x, l !! i = Some x ∧ f x = Ok true ∧
         ∀ j y, j < i → l !! j = Some y → f y = Ok false.
Proof.
  induction l as [|a l IH]; simpl.
  - split; [discriminate | intros (i & x & Hi & _); by destruct i].
  - destruct (f a) as [[|]|e] eqn:Ha; simpl.
    + split; [intros _ | done].
      exists 0, a. repeat split; [done|]. intros j y Hj; lia.
    + rewrite IH. split.
      * intros (i & x & Hi & Hx & Hbefore). exists (S i), x.
        repeat split; [done..|].
        intros [|j] y Hj Hy; simpl in Hy; [congruence|].
        apply (Hbefore j); [lia | done].
      * intros ([|i] & x & Hi & Hx & Hbefore); simpl in Hi.
        -- congruence.
        -- exists i, x. repeat split; [done..|].
           intros j y Hj Hy. apply (Hbefore (S j)); [lia | done].
    + split; [discriminate|].
      intros ([|i] & x & Hi & Hx & Hbefore); simpl in Hi; [congruence|].
      specialize (Hbefore 0 a). simpl in Hbefore.
      rewrite Hbefore in Ha; [discriminate | lia | done].
Qed.

(** [all] answers true exactly when every element does. *)
Lemma all_r_true (l : list A) :
  all_r f l = Ok true ↔ ∀ i x, l !! i = Some x → f x = Ok true.
Proof.
  induction l as [|a l IH]; simpl.
  - split; [intros _ [|i] x; discriminate | done].
  - destruct (f a) as [[|]|e] eqn:Ha; simpl.
    + rewrite IH. split.
      * intros H [|i] x Hi; simpl in Hi; [congruence | by eapply H].
      * intros H i x Hi. by apply (H (S i)).
    + split; [discriminate|]. intros H.
      specialize (H 0 a eq_refl). congruence.
    + split; [discriminate|]. intros H.
      specialize (H 0 a eq_refl). congruence.
Qed.

(** [any] answers false exactly when every element does. *)
Lemma any_r_false (l : list A) :
  any_r f l = Ok false ↔ ∀ x, x ∈ l → f x = Ok false.
Proof.
  induction l as [|a l IH]; simpl.
  - split; [intros _ x Hx; by apply elem_of_nil in Hx | done].
  - destruct (f a) as [[|]|e] eqn:Ha; simpl.
    + split; [discriminate|]. intros H.
      specialize (H a (list_elem_of_here _ _)). congruence.
    + rewrite IH. split.
      * intros H x [->|Hx]%elem_of_cons; [done | by apply H].
      * intros H x Hx. apply H. by right.
    + split; [discriminate|]. intros H.
      specialize (H a (list_elem_of_here _ _)). congruence.
Qed.

(** [any] raises exactly when some element raises and all the elements
    before it answered false; what it raises is what that element raised. *)
Lemma any_r_raise (l : list A) (e : exn) :
  any_r f l = Raise e ↔
  ∃ i x, l !! i = Some x ∧ f x = Raise e ∧
         ∀ j y, j < i → l !! j = Some y → f y = Ok false.
Proof.
  induction l as [|a l IH]; simpl.
  - split; [discriminate | intros (i & x & Hi & _); by destruct i].
  - destruct (f a) as [[|]|e'] eqn:Ha; simpl.
    + split; [discriminate|].
      intros ([|i] & x & Hi & Hx & Hbefore); simpl in Hi; [congruence|].
      specialize (Hbefore 0 a). simpl in Hbefore.
      rewrite Hbefore in Ha; [discriminate | lia | done].
    + rewrite IH. split.
      * intros (i & x & Hi & Hx & Hbefore). exists (S i), x.
        repeat split; [done..|].
        intros [|j] y Hj Hy; simpl in Hy; [congruence|].
        apply (Hbefore j); [lia | done].
      * intros ([|i] & x & Hi & Hx & Hbefore); simpl in Hi.
        -- congruence.
        -- exists i, x. repeat split; [done..|].
           intros j y Hj Hy. apply (Hbefore (S j)); [lia | done].
    + split.
      * intros [= <-]. exists 0, a. repeat split; [done|]. intros j y Hj; lia.
      * intros ([|i] & x & Hi & Hx & Hbefore); simpl in Hi; [congruence|].
        specialize (Hbefore 0 a). simpl in Hbefore.
        rewrite Hbefore in Ha; [discriminate | lia | done].
Qed.

(** When every element answers, so do [any] and [all]. *)
Lemma any_r_returns (l : list A) :
  (∀ x, x ∈ l → ∃ b, f x = Ok b) → ∃ b, any_r f l = Ok b.
Proof.
  induction l as [|a l IH]; intros H; simpl; [eauto|].
  destruct (H a) as [[|] ->]; [left | simpl; eauto |]. simpl.
  apply IH. intros x Hx. apply H. by right.
Qed.

Lemma all_r_returns (l : list A) :
  (∀ x, x ∈ l → ∃ b, f x = Ok b) → ∃ b, all_r f l = Ok b.
Proof.
  induction l as [|a l IH]; intros H; simpl; [eauto|].
  destruct (H a) as [[|] ->]; [left | | simpl; eauto]. simpl.
  apply IH. intros x Hx. apply H. by right.
Qed.

(** What [any] and [all] raise, an element raised. *)
Lemma any_r_raised (l : list A) (e : exn) :
  any_r f l = Raise e → ∃ x, x ∈ l ∧ f x = Raise e.
Proof.
  induction l as [|a l IH]; simpl; [discriminate|].
  destruct (f a) as [[|]|e'] eqn:Ha; simpl; [discriminate | |].
  - intros (x & Hx & Hfx)%IH. exists x. split; [by right | done].
  - intros [= <-]. exists a. split; [left | done].
Qed.

Lemma all_r_raised (l : list A) (e : exn) :
  all_r f l = Raise e → ∃ x, x ∈ l ∧ f x = Raise e.
Proof.
  induction l as [|a l IH]; simpl; [discriminate|].
  destruct (f a) as [[|]|e'] eqn:Ha; simpl; [| discriminate |].
  - intros (x & Hx & Hfx)%IH. exists x. split; [by right | done].
  - intros [= <-]. exists a. split; [left | done].
Qed.

(** An element that raises after all the elements before it have left the
    answer open makes [any] and [all] raise what it raised. *)
Lemma any_r_reached (l : list A) (e : exn) i x :
  l !! i = Some x → f x = Raise e →
  (∀ j y, j < i → l !! j = Some y → f y = Ok false) → any_r f l = Raise e.
Proof. intros Hi Hx Hbefore. apply any_r_raise. eauto. Qed.

Lemma all_r_reached (l : list A) (e : exn) i x :
  l !! i = Some x → f x = Raise e →
  (∀ j y, j < i → l !! j = Some y → f y = Ok true) → all_r f l = Raise e.
Proof.
  revert i. induction l as [|a l IH]; intros [|i] Hi Hx Hbefore;
    simpl in *; try discriminate.
  - injection Hi as ->. by rewrite Hx.
  - rewrite (Hbefore 0 a) by (done || lia). simpl.
    apply (IH i); [done..|].
    intros j y Hj Hy. apply (Hbefore (S j)); [lia | done].
Qed.
End Generators.

(** ** Title case *)

(** After a letter, [title] lowers the rest of a word of letters. *)
Lemma title_from_letters (s : string) :
  forallb is_cased (list_ascii_of_string s) = true →
  title_from true s = lower s.
Proof.
  induction s as [|c s IH]; simpl; [done|].
  intros [Hc Hs]%andb_prop. by rewrite Hc, IH.
Qed.

(** On a name made of letters only, title case is capitalization; this is
    where "capitalized" describes what [extend_class] does to a name. *)
Lemma title_alphabetic (s : string) :
  forallb is_cased (list_ascii_of_string s) = true → title s = capitalize s.
Proof.
  destruct s as [|c s]; simpl; [done|].
  intros [Hc Hs]%andb_prop. unfold title. simpl.
  by rewrite Hc, title_from_letters.
Qed.

(** ** The built-in instance check *)

Lemma builtin_isinstance_tuple rt obj ts :
  builtin_isinstance rt obj (TTuple ts) = any_r (builtin_isinstance rt obj) ts.
Proof. simpl. induction ts as [|t ts IH]; simpl; [done|]. by rewrite IH. Qed.

(** The built-in check looks at the class of the object only. *)
Lemma builtin_isinstance_type_of rt o o' :
  type_of o = type_of o' →
  ∀ t, builtin_isinstance rt o t = builtin_isinstance rt o' t.
Proof.
  intros Hty. fix IH 1.
  intros [c|name|ts|ts|origin args|origin|args|]; simpl; try done.
  - by rewrite Hty.
  - induction ts as [|t ts IHts]; [done|].
    rewrite (IH t), IHts. done.
  - by rewrite Hty.
  - by rewrite Hty.
  - by rewrite Hty.
Qed.

(** A subscripted form that is not a union is refused by the built-in
    check. *)
Lemma builtin_isinstance_subscript rt obj origin params :
  is_Union origin = false →
  builtin_isinstance rt obj (TSubscript origin params)
  = Raise (TypeError Arg2NotAType).
Proof. intros Horigin. simpl. by rewrite Horigin. Qed.

(** ** The relaxed [isinstance] *)

(** C6, as the code has it: against a [Union], [isinstance] gives the members
    to the built-in check, from the left, until one accepts the value.  It
    answers true exactly when the built-in check accepts the value for some
    member and rejects it for every member before; false exactly when the
    built-in check rejects it for every member; and it raises exactly when
    the built-in check raises for some member and rejects the value for every
    member before, raising what that check raised.  The members are not given
    to the relaxed check again: a subscripted member that is reached
    raises. *)
Theorem isinstance_union rt obj args :
  (isinstance rt obj (Union_of args) = Ok true ↔
   ∃ i t, args !! i = Some t ∧ builtin_isinstance rt obj t = Ok true ∧
          ∀ j t', j < i → args !! j = Some t' →
                  builtin_isinstance rt obj t' = Ok false) ∧
  (isinstance rt obj (Union_of args) = Ok false ↔
   ∀ t, t ∈ args → builtin_isinstance rt obj t = Ok false) ∧
  (∀ e, isinstance rt obj (Union_of args) = Raise e ↔
        ∃ i t, args !! i = Some t ∧ builtin_isinstance rt obj t = Raise e ∧
               ∀ j t', j < i → args !! j = Some t' →
                       builtin_isinstance rt obj t' = Ok false) ∧
  (∀ i origin params,
     args !! i = Some (TSubscript origin params) → is_Union origin = false →
     (∀ j t', j < i → args !! j = Some t' →
              builtin_isinstance rt obj t' = Ok false) →
     isinstance rt obj (Union_of args) = Raise (TypeError Arg2NotAType)).
Proof.
  assert (isinstance rt obj (Union_of args)
          = any_r (builtin_isinstance rt obj) args) as -> by done.
  split; [apply any_r_true|]. split; [apply any_r_false|].
  split; [intros e; apply any_r_raise|].
  intros i origin params Hi Horigin Hbefore. apply any_r_raise.
  exists i, (TSubscript origin params).
  by rewrite builtin_isinstance_subscript.
Qed.

Lemma isinstance_union_witness :
  isinstance demo (PStr "x") (Union_of [TClass int_cid; TClass str_cid]) = Ok true ∧
  isinstance demo (PStr "x")
             (Union_of [TClass int_cid; TSubscript (TClass list_cid) [TClass int_cid]])
  = Raise (TypeError Arg2NotAType).
Proof.
  split.
  - apply (proj1 (isinstance_union demo (PStr "x") [TClass int_cid; TClass str_cid])).
    exists 1, (TClass str_cid). repeat split.
    intros [|j] t' Hj; [intros [= <-]; reflexivity | lia].
  - apply (proj2 (proj2 (proj2
             (isinstance_union demo (PStr "x")
                [TClass int_cid; TSubscript (TClass list_cid) [TClass int_cid]])))
             1 (TClass list_cid) [TClass int_cid] eq_refl eq_refl).
    intros [|j] t' Hj; [intros [= <-]; reflexivity | lia].
Defined.

(** C6, as the claim states it, fails: [[1]] is a [list[int]] for the relaxed
    check, so the union check read recursively accepts it against
    [Union[int, list[int]]]; the code raises. *)
Lemma isinstance_union_not_recursive :
  let value := PList [PInt 1] in
  let list_of_int := TSubscript (TClass list_cid) [TClass int_cid] in
  isinstance demo value list_of_int = Ok true ∧
  isinstance_union_recursive demo value [TClass int_cid; list_of_int] = Ok true ∧
  isinstance demo value (Union_of [TClass int_cid; list_of_int])
  = Raise (TypeError Arg2NotAType).
Proof. repeat split; reflexivity. Qed.

(** C7, as the code has it: against a subscripted type that is not a union,
    [isinstance] answers true exactly when the value is an instance of the
    origin and element [i] of the value is an instance of parameter [i], for
    every [i] both have; elements past the parameters do not matter; and on a
    value without elements the answer is that of the origin check alone. *)
Theorem isinstance_parameterized rt obj origin args :
  is_Union origin = false →
  (isinstance rt obj (TSubscript origin args) = Ok true ↔
   builtin_isinstance rt obj origin = Ok true ∧
   ∃ items, iter obj = Some items ∧
            ∀ i x t, items !! i = Some x → args !! i = Some t →
                     builtin_isinstance rt x t = Ok true) ∧
  (∀ obj' items extra,
     type_of obj' = type_of obj → iter obj = Some items →
     iter obj' = Some (items ++ extra) → length args ≤ length items →
     isinstance rt obj' (TSubscript origin args)
     = isinstance rt obj (TSubscript origin args)) ∧
  (iter obj = Some [] →
   isinstance rt obj (TSubscript origin args) = builtin_isinstance rt obj origin).
Proof.
  intros Horigin. unfold isinstance. simpl. rewrite Horigin.
  split; [|split].
  - destruct (builtin_isinstance rt obj origin) as [[|]|e]; simpl.
    + destruct (iter obj) as [items|].
      * rewrite all_r_true. split.
        -- intros H. split; [done|]. exists items. split; [done|].
           intros i x t Hx Ht. apply (H i (x, t)). by apply lookup_zip_Some.
        -- intros (_ & items' & [= <-] & H) i [x t] [Hx Ht]%lookup_zip_Some.
           by eapply H.
      * split; [discriminate | by intros (_ & ? & ? & _)].
    + split; [discriminate | by intros [? _]].
    + split; [discriminate | by intros [? _]].
  - intros obj' items extra Hty Hitems Hitems' Hlen.
    rewrite (builtin_isinstance_type_of rt obj' obj Hty), Hitems, Hitems'.
    destruct (builtin_isinstance rt obj origin) as [[|]|e]; simpl; try done.
    f_equal.
    rewrite <- (zip_with_take_l _ (items ++ extra) args).
    rewrite <- (zip_with_take_l _ items args).
    by rewrite take_app_le.
  - intros ->. by destruct (builtin_isinstance rt obj origin) as [[|]|e].
Qed.

Lemma isinstance_parameterized_witness :
  isinstance demo (PList [PInt 1; PStr "x"; PNone])
             (TSubscript (TClass list_cid) [TClass int_cid; TClass str_cid])
  = Ok true.
Proof.
  apply (proj1 (isinstance_parameterized demo (PList [PInt 1; PStr "x"; PNone])
                  (TClass list_cid) [TClass int_cid; TClass str_cid] eq_refl)).
  split; [reflexivity|]. eexists. split; [reflexivity|].
  intros [|[|[|i]]] x t; simpl; intros [= <-]; intros [= <-]; reflexivity.
Defined.

(** C7, as the claim states it, fails on its last clause: the empty tuple
    does not pass against [list[int]], since it is no list. *)
Lemma isinstance_empty_not_origin :
  iter (PTuple []) = Some [] ∧
  isinstance demo (PTuple []) (TSubscript (TClass list_cid) [TClass int_cid])
  = Ok false.
Proof. split; reflexivity. Qed.

(** What [isinstance] does, by the built-in checks it can make. *)
Lemma isinstance_checks rt obj typ :
  isinstance rt obj typ =
  match typ with
  | TList _ | TTuple _ =>
      any_r (fun p => builtin_isinstance rt p.1 p.2) (checks obj typ)
  | _ =>
      match get_origin typ with
      | Some origin =>
          if is_Union origin
          then any_r (fun p => builtin_isinstance rt p.1 p.2) (checks obj typ)
          else
            match iter obj with
            | Some _ => all_r (fun p => builtin_isinstance rt p.1 p.2) (checks obj typ)
            | None =>
                b ←r builtin_isinstance rt obj origin;
                if b : bool then Raise (TypeError NotIterable) else Ok false
            end
      | None => builtin_isinstance rt obj typ
      end
  end.
Proof.
  assert (∀ ts, any_r (builtin_isinstance rt obj) ts
                = any_r (fun p => builtin_isinstance rt p.1 p.2) (pair obj <$> ts))
    as Hany.
  { intros ts. induction ts as [|t ts IH]; simpl; [done|]. by rewrite IH. }
  unfold isinstance, checks.
  destruct typ as [c|name|ts|ts|origin args|origin|args|]; try apply Hany;
    try done; destruct (get_origin _) as [o|] eqn:Ho; try done;
    (destruct (is_Union o); [apply Hany|]);
    destruct (iter obj) as [items|]; simpl;
    by destruct (builtin_isinstance rt obj o) as [[|]|e].
Qed.

(** C8, as the code has it: [isinstance] answers, and does not raise,
    whenever every built-in check it can make answers and, against a type
    with an origin of which the value is an instance, the value can be
    iterated.  It has no refusal of its own: when it raises, one of those
    built-in checks raised that exception, or the value passed the origin
    check and could not be iterated.  And it hides no refusal: a built-in
    check that raises after all the checks before it have left the answer
    open makes [isinstance] raise the same. *)
Theorem isinstance_raises_with_builtin rt obj typ :
  ((∀ x t, (x, t) ∈ checks obj typ → ∃ b, builtin_isinstance rt x t = Ok b) →
   (∀ origin, get_origin typ = Some origin → is_Union origin = false →
              builtin_isinstance rt obj origin = Ok true → is_Some (iter obj)) →
   ∃ b, isinstance rt obj typ = Ok b) ∧
  (∀ e, isinstance rt obj typ = Raise e →
        (∃ x t, (x, t) ∈ checks obj typ ∧ builtin_isinstance rt x t = Raise e) ∨
        (∃ origin, get_origin typ = Some origin ∧
                   builtin_isinstance rt obj origin = Ok true ∧ iter obj = None)) ∧
  (∀ i x t e,
     checks obj typ !! i = Some (x, t) → builtin_isinstance rt x t = Raise e →
     (∀ j y u, j < i → checks obj typ !! j = Some (y, u) →
               builtin_isinstance rt y u = Ok (negb (decisive typ))) →
     isinstance rt obj typ = Raise e).
Proof.
  assert (∀ l : list (pyobj * typespec),
            (∀ x t, (x, t) ∈ l → ∃ b, builtin_isinstance rt x t = Ok b) →
            ∀ p, p ∈ l → ∃ b, builtin_isinstance rt p.1 p.2 = Ok b) as Hpair
    by (intros l H [x t] Hp; by apply H).
  assert (∀ (l : list (pyobj * typespec)) e,
            (∃ p, p ∈ l ∧ builtin_isinstance rt p.1 p.2 = Raise e) →
            ∃ x t, (x, t) ∈ l ∧ builtin_isinstance rt x t = Raise e) as Hraised
    by (intros l e ([x t] & Hp & He); eauto).
  rewrite isinstance_checks. split; [|split].
  - intros Hchecks Hiter.
    destruct typ as [c|name|ts|ts|origin args|origin|args|];
      try (by apply any_r_returns, Hpair).
    all: destruct (get_origin _) as [o|] eqn:Ho;
      [|apply (Hchecks obj); unfold checks; rewrite Ho; left].
    all: specialize (Hiter o eq_refl).
    all: destruct (is_Union o) eqn:HU; [by apply any_r_returns, Hpair|].
    all: destruct (iter obj) as [items|] eqn:Hitems;
      [by apply all_r_returns, Hpair|].
    all: destruct (Hchecks obj o) as [[|] Hb];
      [unfold checks; rewrite Ho, HU; left | | rewrite Hb; simpl; eauto].
    all: by destruct (Hiter eq_refl Hb).
  - intros e.
    destruct typ as [c|name|ts|ts|origin args|origin|args|];
      try (by intros ?%any_r_raised%Hraised; left).
    all: destruct (get_origin _) as [o|] eqn:Ho;
      [|intros He; left; exists obj; eexists; split; [|exact He];
        unfold checks; rewrite Ho; left].
    all: destruct (is_Union o) eqn:HU;
      [by intros ?%any_r_raised%Hraised; left|].
    all: destruct (iter obj) as [items|] eqn:Hitems;
      [by intros ?%all_r_raised%Hraised; left|].
    all: destruct (builtin_isinstance rt obj o) as [[|]|e'] eqn:Hb; unfold rbind;
      [intros _; right; by exists o | discriminate |].
    all: intros [= <-]; left; exists obj, o; split; [|done].
    all: unfold checks; rewrite Ho, HU; left.
  - intros i x t e Hi He Hbefore.
    assert (∀ b, (∀ j y u, j < i → checks obj typ !! j = Some (y, u) →
                           builtin_isinstance rt y u = Ok b) →
                 ∀ j p, j < i → checks obj typ !! j = Some p →
                        builtin_isinstance rt p.1 p.2 = Ok b) as Hpairs
      by (intros b H j [y u] Hj Hp; by eapply H).
    unfold decisive in Hbefore.
    destruct typ as [c|name|ts|ts|origin args|origin|args|];
      try (by eapply any_r_reached; [done.. | by apply Hpairs]).
    all: destruct (get_origin _) as [o|] eqn:Ho;
      [|unfold checks in Hi; rewrite Ho in Hi;
        destruct i; simpl in Hi; [by injection Hi as <- <- | done]].
    all: destruct (is_Union o) eqn:HU;
      [by eapply any_r_reached; [done.. | by apply Hpairs]|].
    all: destruct (iter obj) as [items|] eqn:Hitems;
      [by eapply all_r_reached; [done.. | by apply Hpairs]|].
    all: unfold checks in Hi; rewrite Ho, HU, Hitems in Hi.
    all: destruct i; simpl in Hi; [injection Hi as <- <-; by rewrite He | done].
Qed.

Lemma isinstance_raises_with_builtin_witness :
  ∃ b, isinstance demo (PList [PInt 1; PStr "x"])
                  (TSubscript (TClass list_cid) [TClass int_cid; TClass int_cid])
       = Ok b.
Proof.
  apply (proj1 (isinstance_raises_with_builtin demo (PList [PInt 1; PStr "x"])
                  (TSubscript (TClass list_cid) [TClass int_cid; TClass int_cid]))).
  - intros x t Hin. vm_compute in Hin.
    repeat (apply elem_of_cons in Hin as [[= -> ->]|Hin]; [by eexists|]).
    by apply elem_of_nil in Hin.
  - intros origin _ _ _. by eexists.
Defined.

(** C8, as the claim states it, fails: [list[list[int]]] is a well-formed
    parameterized container type, and testing [[[1]]] against it raises. *)
Lemma isinstance_nested_raises :
  let list_of_int := TSubscript (TClass list_cid) [TClass int_cid] in
  isinstance demo (PList [PList [PInt 1]]) (TSubscript (TClass list_cid) [list_of_int])
  = Raise (TypeError Arg2NotAType).
Proof. reflexivity. Qed.

(** ** [class_path] *)

(** C9, as the code has it: for an object whose class has a string as its
    [__module__], the label is [module.ClassName], and the bare class name
    when the module is [builtins], [__builtin__] or [__main__]; it is the bare
    class name too when the class has no [__module__]; so [5] is labelled
    [int] and an instance of [Foo] of [pkg.mod] is labelled [pkg.mod.Foo]. *)
Theorem class_path_label rt obj :
  let cls := class_at rt (type_of obj) in
  (∀ module, c_module cls = Some (PStr module) → module ∉ quiet_modules →
             class_path rt obj = Ok (module +:+ "." +:+ c_name cls)) ∧
  (∀ module, c_module cls = Some (PStr module) → module ∈ quiet_modules →
             class_path rt obj = Ok (c_name cls)) ∧
  (c_module cls = None → class_path rt obj = Ok (c_name cls)) ∧
  class_path demo (PInt 5) = Ok "int" ∧
  class_path demo (PInst Foo_cid None) = Ok "pkg.mod.Foo".
Proof.
  unfold class_path. simpl. repeat split.
  - intros module -> Hm. by rewrite bool_decide_eq_false_2.
  - intros module -> Hm. by rewrite bool_decide_eq_true_2.
  - by intros ->.
Qed.

Lemma class_path_label_witness :
  class_path demo (PClass Foo_cid) = Ok "type" ∧
  class_path demo (PInst Placeholder_cid None) = Ok "Pypable.typing.Placeholder".
Proof.
  split.
  - apply (proj1 (proj2 (class_path_label demo (PClass Foo_cid))) "builtins");
      [reflexivity | by_deciding].
  - apply (proj1 (class_path_label demo (PInst Placeholder_cid None)) this_module);
      [reflexivity | by_deciding].
Defined.

(** C9, as the claim states it, fails: not every object gets a label.  The
    class that [extend_class(Person, Greeter, attrs={'__module__': 5})] makes
    has the number [5] as its [__module__], and on an instance of it
    [class_path] raises. *)
Lemma class_path_needs_a_string :
  extend_class demo (PClass Person_cid) [Greeter_cid] (PDict [("__module__", PInt 5)])
  = Ok (demo_numbered, 18) ∧
  class_path demo_numbered (PInst 18 None) = Raise (TypeError BadOperand).
Proof. split; vm_compute; reflexivity. Qed.

(** ** Class creation *)

Lemma total_length_filter (P : list cid → bool) (seqs : list (list cid)) :
  total_length (List.filter P seqs) ≤ total_length seqs.
Proof.
  induction seqs as [|s seqs IH]; simpl; [done|].
  destruct (P s); simpl; lia.
Qed.

Lemma length_drop_head h s : length (drop_head h s) ≤ length s.
Proof. destruct s as [|x s]; simpl; [done|]. destruct (x =? h); simpl; lia. Qed.

Lemma total_length_drop_head h (seqs : list (list cid)) :
  total_length (map (drop_head h) seqs) ≤ total_length seqs.
Proof.
  induction seqs as [|s seqs IH]; simpl; [done|].
  pose proof (length_drop_head h s). lia.
Qed.

(** Dropping a head that some sequence has makes the sequences shorter. *)
Lemma total_length_drop_head_lt h (seqs : list (list cid)) :
  h ∈ omap head seqs →
  total_length (map (drop_head h) seqs) < total_length seqs.
Proof.
  induction seqs as [|s seqs IH]; simpl; [by intros ?%elem_of_nil|].
  pose proof (total_length_drop_head h seqs).
  pose proof (length_drop_head h s).
  destruct s as [|x s]; simpl in *.
  - intros Hin. specialize (IH Hin). lia.
  - intros [->|Hin]%elem_of_cons.
    + rewrite Nat.eqb_refl. lia.
    + specialize (IH Hin). destruct (x =? h); simpl; lia.
Qed.

Lemma next_head_elem_of seqs h : next_head seqs = Some h → h ∈ omap head seqs.
Proof.
  unfold next_head. intros [Hin _]%find_some. by apply list_elem_of_In.
Qed.

(** The merge does not depend on its fuel once the fuel exceeds the total
    length of the sequences, which is what [linearize] gives it: a failure of
    [linearize] is a failure to find a head. *)
Lemma merge_fuel (f1 f2 : nat) (seqs : list (list cid)) :
  total_length seqs < f1 → total_length seqs < f2 →
  merge f1 seqs = merge f2 seqs.
Proof.
  revert f2 seqs. induction f1 as [|f1 IH]; intros [|f2] seqs H1 H2; try lia.
  simpl. pose proof (total_length_filter nonempty seqs) as Hlive.
  destruct (List.filter nonempty seqs) as [|s live]; [done|].
  destruct (next_head (s :: live)) as [h|] eqn:Hh; [|done].
  apply next_head_elem_of, total_length_drop_head_lt in Hh.
  f_equal. apply IH; simpl in *; lia.
Qed.

Lemma class_at_allocate_old rt cls c :
  c < length (classes rt) → class_at (allocate rt cls) c = class_at rt c.
Proof. intros Hc. unfold class_at. simpl. by rewrite lookup_app_l. Qed.

Lemma class_at_allocate_new rt cls :
  class_at (allocate rt cls) (length (classes rt)) = cls.
Proof.
  unfold class_at. simpl.
  by rewrite lookup_app_r, Nat.sub_diag.
Qed.

(** When [type()] returns, it has found nothing to refuse and has allocated
    the class [new_class] describes. *)
Lemma type_new_Ok rt name bases ns rt' k :
  type_new rt name bases ns = Ok (rt', k) ↔
  ∃ kvs below,
    ns = PDict kvs ∧ best_base rt None bases = None ∧ qualname_refusal kvs = None ∧
    NoDup bases ∧ linearize rt bases = Some below ∧
    generic_hook bases below kvs = None ∧
    k = length (classes rt) ∧
    rt' = allocate rt (new_class k name bases below kvs).
Proof.
  unfold type_new. split.
  - destruct ns as [| | | | |kvs| | |]; try discriminate.
    destruct (best_base rt None bases) eqn:Hbest; [discriminate|].
    destruct (qualname_refusal kvs) eqn:Hqualname; [discriminate|].
    case_bool_decide as Hdup; [|discriminate].
    destruct (linearize rt bases) as [below|] eqn:Hlin; [|discriminate].
    destruct (generic_hook bases below kvs) eqn:Hhook; [discriminate|].
    intros [= <- <-]. by exists kvs, below.
  - intros (kvs & below & -> & -> & -> & Hdup & -> & -> & -> & ->).
    by rewrite bool_decide_eq_true_2.
Qed.

(** The classes of [demo] have the resolution orders Python gives them. *)
Lemma demo_resolution_orders : resolution_orders_agree demo = true.
Proof. vm_compute. reflexivity. Qed.

(** ** [extend_class] *)

Lemma classes_in_frame_lookup rt name c :
  classes_in_frame rt !! name = Some c ↔ frame rt !! name = Some (PClass c).
Proof.
  unfold classes_in_frame. rewrite lookup_omap_Some. split.
  - intros (o & Ho & Hf). destruct o; simpl in Ho; try discriminate.
    by injection Ho as ->.
  - intros H. by exists (PClass c).
Qed.

Lemma classes_in_frame_allocate rt cls :
  classes_in_frame (allocate rt cls) = classes_in_frame rt.
Proof. reflexivity. Qed.

(** On a class, [extend_class] is a guard, a lookup and a creation. *)
Lemma extend_class_class rt c mixins attrs :
  extend_class rt (PClass c) mixins attrs =
  if issubclass rt c mixins then Ok (rt, c)
  else match classes_in_frame rt !! extension_name rt c mixins with
       | Some extended => Ok (rt, extended)
       | None => type_new rt (extension_name rt c mixins) (mixins ++ [c])
                          (attrs_or_empty attrs)
       end.
Proof. reflexivity. Qed.

(** Allocation does not disturb what the existing classes are. *)
Lemma issubclass_allocate rt cls c ms :
  c < length (classes rt) →
  issubclass (allocate rt cls) c ms = issubclass rt c ms.
Proof.
  intros Hc. unfold issubclass, issubclass1.
  by rewrite class_at_allocate_old.
Qed.

Lemma extension_name_allocate rt cls c ms :
  c < length (classes rt) → Forall (fun m => m < length (classes rt)) ms →
  extension_name (allocate rt cls) c ms = extension_name rt c ms.
Proof.
  intros Hc Hms. unfold extension_name.
  rewrite class_at_allocate_old by done. f_equal. f_equal.
  induction Hms as [|m ms Hm _ IH]; simpl; [done|].
  by rewrite class_at_allocate_old, IH.
Qed.

Lemma linearize_allocate rt cls bases :
  Forall (fun b => b < length (classes rt)) bases →
  linearize (allocate rt cls) bases = linearize rt bases.
Proof.
  intros Hbases. unfold linearize.
  assert (map (fun b => c_mro (class_at (allocate rt cls) b)) bases
          = map (fun b => c_mro (class_at rt b)) bases) as ->; [|done].
  induction Hbases as [|b bases Hb _ IH]; simpl; [done|].
  by rewrite class_at_allocate_old, IH.
Qed.

Lemma best_base_allocate rt cls bases :
  Forall (fun b => b < length (classes rt)) bases →
  ∀ winner, best_base (allocate rt cls) winner bases = best_base rt winner bases.
Proof.
  induction 1 as [|b bases Hb _ IH]; intros winner; [done|].
  cbn [best_base]. unfold solid_base. rewrite class_at_allocate_old by done.
  case_bool_decide; [done|].
  destruct (find _ _) as [s|], winner as [w|]; try apply IH.
  destruct (s =? w); [apply IH | done].
Qed.

(** C1, on the code: when the base derives from none of the mixins and no
    class is registered under the composite name, a first call that returns
    is followed by a second call that returns too, and the class it returns
    is not the class the first returned: the second call finds the runtime as
    the first found it, one unregistered class object apart, and allocates
    the address after. *)
Theorem extend_class_twice_differs rt c ms attrs rt1 k1 :
  c < length (classes rt) → Forall (fun m => m < length (classes rt)) ms →
  issubclass rt c ms = false →
  classes_in_frame rt !! extension_name rt c ms = None →
  extend_class rt (PClass c) ms attrs = Ok (rt1, k1) →
  extend_class_twice rt (PClass c) ms attrs = Ok (k1, S k1) ∧ S k1 ≠ k1.
Proof.
  intros Hc Hms Hsub Hname Hfirst. split; [|lia].
  unfold extend_class_twice. rewrite Hfirst. simpl.
  rewrite extend_class_class, Hsub, Hname in Hfirst.
  apply type_new_Ok in Hfirst
    as (kvs & below & Hns & Hbest & Hqualname & Hdup & Hlin & Hhook & -> & ->).
  assert (Forall (fun b => b < length (classes rt)) (ms ++ [c])) as Hbases
    by (apply Forall_app; split; [done | by constructor]).
  rewrite extend_class_class, issubclass_allocate, Hsub by done.
  rewrite classes_in_frame_allocate, extension_name_allocate, Hname by done.
  unfold type_new.
  rewrite Hns, best_base_allocate, Hbest, Hqualname, bool_decide_eq_true_2 by done.
  rewrite linearize_allocate, Hlin, Hhook by done.
  simpl. rewrite length_app. simpl. do 3 f_equal. lia.
Qed.

Lemma extend_class_twice_differs_witness :
  extend_class_twice demo (PClass Person_cid) [Greeter_cid] PNone = Ok (18, 19) ∧
  19 ≠ 18.
Proof.
  apply (extend_class_twice_differs demo Person_cid [Greeter_cid] PNone
           demo_extended 18).
  - vm_compute. lia.
  - repeat constructor.
  - reflexivity.
  - vm_compute. reflexivity.
  - vm_compute. reflexivity.
Defined.

(** C3, on the code: a call that creates a class leaves the namespace of
    every module as it was, and the module's own namespace has no class under
    the name of the class just created. *)
Theorem extend_class_registers_nothing rt c ms attrs rt' k :
  extend_class rt (PClass c) ms attrs = Ok (rt', k) → rt' ≠ rt →
  sys_modules rt' = sys_modules rt ∧
  c_name (class_at rt' k) = extension_name rt c ms ∧
  classes_in_frame rt' !! c_name (class_at rt' k) = None.
Proof.
  rewrite extend_class_class.
  destruct (issubclass rt c ms); [by intros [= <- <-]|].
  destruct (classes_in_frame rt !! extension_name rt c ms) eqn:Hname;
    [by intros [= <- <-]|].
  intros (kvs & below & _ & _ & _ & _ & _ & _ & -> & ->)%type_new_Ok _.
  by rewrite class_at_allocate_new, classes_in_frame_allocate.
Qed.

Lemma extend_class_registers_nothing_witness :
  sys_modules demo_extended = sys_modules demo ∧
  c_name (class_at demo_extended 18) = extension_name demo Person_cid [Greeter_cid] ∧
  classes_in_frame demo_extended !! c_name (class_at demo_extended 18) = None.
Proof.
  apply (extend_class_registers_nothing demo Person_cid [Greeter_cid] PNone).
  - vm_compute. reflexivity.
  - intros Heq%(f_equal (fun r => length (classes r))). vm_compute in Heq. lia.
Defined.




(** Where all the names are made of letters only, the composite name is the
    one the names capitalized give. *)
Lemma extension_name_alphabetic rt c ms :
  Forall (fun k => forallb is_cased (list_ascii_of_string (c_name (class_at rt k))) = true)
         (c :: ms) →
  extension_name rt c ms = capitalized_name rt c ms.
Proof.
  intros [Hc Hms]%Forall_cons. unfold extension_name, capitalized_name.
  rewrite (title_alphabetic _ Hc). f_equal. f_equal.
  induction Hms as [|m ms Hm _ IH]; simpl; [done|].
  by rewrite (title_alphabetic _ Hm), IH.
Qed.

(** C4, as the code has it, for classes named in ASCII, on which [title] is
    [str.title()]: whenever a call on a class changes the runtime, what it
    returns is a new class, at a fresh address, named by the title-cased
    names of the mixins, in order, then of the base, with the mixins, in
    order, then the base as its bases. *)
Theorem extend_class_synthesizes rt c ms attrs rt' k :
  Forall (fun b => ascii_text (c_name (class_at rt b)) = true) (ms ++ [c]) →
  extend_class rt (PClass c) ms attrs = Ok (rt', k) → rt' ≠ rt →
  k = length (classes rt) ∧
  c_name (class_at rt' k)
  = join (map (fun m => title (c_name (class_at rt m))) ms)
    +:+ title (c_name (class_at rt c)) ∧
  c_bases (class_at rt' k) = ms ++ [c].
Proof.
  intros _. rewrite extend_class_class.
  destruct (issubclass rt c ms); [by intros [= <- <-]|].
  destruct (classes_in_frame rt !! extension_name rt c ms);
    [by intros [= <- <-]|].
  intros (kvs & below & _ & _ & _ & _ & _ & _ & -> & ->)%type_new_Ok _.
  rewrite class_at_allocate_new. done.
Qed.

Lemma extend_class_synthesizes_witness :
  let rt' := allocate demo (new_class 18 "GreeterLoggerPerson"
                              [Greeter_cid; Logger_cid; Person_cid]
                              [Greeter_cid; Logger_cid; Person_cid; object_cid] []) in
  18 = length (classes demo) ∧
  c_name (class_at rt' 18) = "GreeterLoggerPerson" ∧
  c_bases (class_at rt' 18) = [Greeter_cid; Logger_cid; Person_cid].
Proof.
  intros rt'.
  apply (extend_class_synthesizes demo Person_cid [Greeter_cid; Logger_cid] PNone rt' 18).
  - by repeat constructor.
  - vm_compute. reflexivity.
  - intros Heq%(f_equal (fun r => length (classes r))). vm_compute in Heq. lia.
Defined.

(** C4, as the claim states it, fails on the name: the mixin [json_mixin]
    and the base [Person] give [Json_MixinPerson], where capitalizing the
    two names gives [Json_mixinPerson]. *)
Lemma composite_name_is_title_case :
  capitalized_name demo Person_cid [json_mixin_cid] = "Json_mixinPerson" ∧
  match extend_class demo (PClass Person_cid) [json_mixin_cid] PNone with
  | Ok (rt', extended) => c_name (class_at rt' extended) = "Json_MixinPerson"
  | Raise _ => False
  end.
Proof. split; vm_compute; reflexivity. Qed.

(** C5: a name is looked up among the classes of the module's namespace; a
    name bound to no class there raises [KeyError] with that name, and a name
    bound to a class makes the call what it is on that class. *)
Theorem extend_class_by_name rt name ms attrs :
  ((∀ c, frame rt !! name ≠ Some (PClass c)) →
   extend_class rt (PStr name) ms attrs = Raise (KeyError name)) ∧
  (∀ c, frame rt !! name = Some (PClass c) →
        extend_class rt (PStr name) ms attrs
        = extend_class rt (PClass c) ms attrs).
Proof.
  unfold extend_class. split.
  - intros Hnone.
    destruct (classes_in_frame rt !! name) as [c|] eqn:Hc; [|done].
    by apply classes_in_frame_lookup, Hnone in Hc.
  - intros c Hc%classes_in_frame_lookup. by rewrite Hc.
Qed.

Lemma extend_class_by_name_witness :
  extend_class demo (PStr "Person") [Greeter_cid] PNone = Raise (KeyError "Person") ∧
  extend_class demo (PStr "Placeholder") [Greeter_cid] PNone
  = extend_class demo (PClass Placeholder_cid) [Greeter_cid] PNone.
Proof.
  split.
  - apply (proj1 (extend_class_by_name demo "Person" [Greeter_cid] PNone)).
    intros c. vm_compute. discriminate.
  - apply (proj2 (extend_class_by_name demo "Placeholder" [Greeter_cid] PNone)).
    vm_compute. reflexivity.
Defined.

(** ** [wrap_object] *)


(** An instance of a class made by a class statement sees the [__module__]
    of its class and has no [__qualname__]: its parent class never resolves. *)
Lemma get_parent_class_instance rt c items m :
  attr_module rt (PInst c items) = Some (PStr m) →
  get_parent_class rt (PInst c items)
  = Raise (match sys_modules rt !! m with
           | Some _ => AttributeError "__qualname__"
           | None => KeyError m
           end).
Proof.
  intros Hm. unfold get_parent_class. rewrite Hm. unfold lookup_in_module. simpl.
  by destruct (sys_modules rt !! m).
Qed.

Section WrapObjectProperties.
Variable construct : runtime → cid → pyobj → result pyobj.


End WrapObjectProperties.



(** * Further properties of the module *)

(** ** The open modes *)

(** The table of open modes holds exactly the strings made of one direction,
    then at most one encoding, then at most one [+]; it holds each of them
    once, twenty-four in all. *)
Theorem open_modes_shape :
  (∀ s, s ∈ _open_modes ↔
        ∃ x y z, x ∈ _OpenDirection ∧ y ∈ EmptyString :: _OpenEncoding ∧
                 z ∈ _OpenModifier ∧ s = x +:+ y +:+ z) ∧
  NoDup _open_modes ∧ length _open_modes = 24.
Proof.
  split; [|split; [by_deciding | reflexivity]].
  intros s. unfold _open_modes. rewrite elem_of_app. split.
  - intros [H|H].
    + apply list_elem_of_bind in H as (x & H & Hx).
      apply list_elem_of_bind in H as (z & H & Hz).
      apply list_elem_of_singleton in H as ->.
      exists x, EmptyString, z. repeat split; [done | left | done].
    + apply list_elem_of_bind in H as (x & H & Hx).
      apply list_elem_of_bind in H as (y & H & Hy).
      apply list_elem_of_bind in H as (z & H & Hz).
      apply list_elem_of_singleton in H as ->.
      exists x, y, z. repeat split; [done | by right | done].
  - intros (x & y & z & Hx & Hy & Hz & ->).
    apply elem_of_cons in Hy as [->|Hy].
    + left. apply list_elem_of_bind. exists x. split; [|done].
      apply list_elem_of_bind. exists z. split; [|done].
      by apply list_elem_of_singleton.
    + right. apply list_elem_of_bind. exists x. split; [|done].
      apply list_elem_of_bind. exists y. split; [|done].
      apply list_elem_of_bind. exists z. split; [|done].
      by apply list_elem_of_singleton.
Qed.

(** ** [get_parent_class] *)

Lemma lacks_app c s1 s2 : lacks c (s1 +:+ s2) = lacks c s1 && lacks c s2.
Proof.
  unfold lacks. induction s1 as [|x s1 IH]; simpl; [done|].
  by rewrite IH, andb_assoc.
Qed.

(** Nothing is cut from a string that has no dot. *)
Lemma split_head_locals_none s :
  lacks "." s = true → split_head ".<locals>" s = s.
Proof.
  induction s as [|c s IH]; [done|].
  intros [Hc Hs]%andb_prop. cbn [split_head String.prefix].
    destruct (ascii_dec "." c) as [<-|_]; [done|]. by rewrite IH.
Qed.

(** [.<locals>] does not start where the next character is not [<]. *)
Lemma prefix_locals_false c s :
  (∀ c' s', s = String c' s' → c' ≠ "<"%char) →
  String.prefix ".<locals>" (String c s) = false.
Proof.
  intros Hnext.
  change (String.prefix ".<locals>" (String c s))
    with (if ascii_dec "." c then String.prefix "<locals>" s else false).
  destruct (ascii_dec "." c) as [_|_]; [|done].
  destruct s as [|c' s']; [done|].
  change (String.prefix "<locals>" (String c' s'))
    with (if ascii_dec "<" c' then String.prefix "locals>" s' else false).
  destruct (ascii_dec "<" c') as [<-|_]; [|done].
  by destruct (Hnext "<"%char s').
Qed.

Lemma lacks_head c x s : lacks c (String x s) = true → x ≠ c ∧ lacks c s = true.
Proof.
  unfold lacks. simpl. intros [Hx Hs]%andb_prop. split; [|done].
  by apply negb_true_iff, Ascii.eqb_neq in Hx.
Qed.

(** The first [.<locals>] ends the head; what precedes it has none when it
    has no [<]. *)
Lemma split_head_locals_app p r :
  lacks "<" p = true → split_head ".<locals>" (p +:+ ".<locals>" +:+ r) = p.
Proof.
  induction p as [|c p IH]; [intros _; by destruct r|].
  intros [Hc Hp]%lacks_head.
  change (split_head ".<locals>" (String c p +:+ ".<locals>" +:+ r))
    with (if String.prefix ".<locals>" (String c (p +:+ ".<locals>" +:+ r))
          then EmptyString
          else String c (split_head ".<locals>" (p +:+ ".<locals>" +:+ r))).
  rewrite (IH Hp), prefix_locals_false; [done|].
  intros c' s'. destruct p as [|x p]; [by intros [= <- _]|].
  intros [= <- _]. by apply lacks_head in Hp as [? _].
Qed.

Lemma split_head_locals_lacks s :
  lacks "<" s = true → split_head ".<locals>" s = s.
Proof.
  induction s as [|c s IH]; [done|].
  intros [Hc Hs]%lacks_head.
  change (split_head ".<locals>" (String c s))
    with (if String.prefix ".<locals>" (String c s) then EmptyString
          else String c (split_head ".<locals>" s)).
  rewrite (IH Hs), prefix_locals_false; [done|].
  intros c' s' ->. by apply lacks_head in Hs as [? _].
Qed.

Lemma before_last_dot_none s : lacks "." s = true → before_last_dot s = None.
Proof.
  induction s as [|c s IH]; [done|].
  intros [Hc Hs]%andb_prop. simpl. rewrite (IH Hs).
  by apply negb_true_iff in Hc as ->.
Qed.

Lemma before_last_dot_app owner leaf :
  lacks "." leaf = true → before_last_dot (owner +:+ "." +:+ leaf) = Some owner.
Proof.
  intros Hleaf. induction owner as [|c owner IH].
  - change (EmptyString +:+ "." +:+ leaf) with (String "." leaf). simpl.
    by rewrite (before_last_dot_none _ Hleaf).
  - change (String c owner +:+ "." +:+ leaf)
      with (String c (owner +:+ "." +:+ leaf)).
    simpl. by rewrite IH.
Qed.

(** The name [get_parent_class] looks up, by the shape of the qualified name:
    everything from the first [.<locals>] on is dropped; of a dotted name the
    last segment is dropped; a name without a dot is kept whole, so that a
    top-level function or class is looked up under its own name. *)
Theorem class_name_of_shape :
  (∀ outer rest, lacks "<" outer = true →
     class_name_of (outer +:+ ".<locals>" +:+ rest) = class_name_of outer) ∧
  (∀ owner leaf, lacks "<" owner = true → lacks "<" leaf = true →
     lacks "." leaf = true →
     class_name_of (owner +:+ "." +:+ leaf) = owner) ∧
  (∀ q, lacks "." q = true → class_name_of q = q).
Proof.
  unfold class_name_of, rsplit_head. split; [|split].
  - intros outer rest Houter.
    by rewrite split_head_locals_app, split_head_locals_lacks.
  - intros owner leaf Howner Hleaf Hdot.
    rewrite split_head_locals_lacks, before_last_dot_app; [done..|].
    rewrite !lacks_app, Howner, Hleaf. done.
  - intros q Hq.
    by rewrite split_head_locals_none, before_last_dot_none.
Qed.

Lemma class_name_of_shape_witness :
  class_name_of "Outer.m.<locals>.g" = class_name_of "Outer.m" ∧
  class_name_of "Outer.Inner.meth" = "Outer.Inner" ∧
  class_name_of "Placeholder" = "Placeholder".
Proof.
  destruct class_name_of_shape as (Hlocals & Hdotted & Hplain).
  split; [|split].
  - apply (Hlocals "Outer.m" ".g"). reflexivity.
  - apply (Hdotted "Outer.Inner" "meth"); reflexivity.
  - apply (Hplain "Placeholder"). reflexivity.
Defined.

(** With a qualified name and its module loaded, the lookup is by the name
    [class_name_of] gives. *)
Lemma get_parent_class_qualname rt obj q m module :
  attr_qualname rt obj = Some q →
  owning_module rt obj = Some m → sys_modules rt !! m = Some module →
  get_parent_class rt obj
  = match module !! class_name_of q with
    | Some parent => Ok parent
    | None => Raise (AttributeError (class_name_of q))
    end.
Proof.
  intros Hq Hm Hmodule. unfold get_parent_class, owning_module in *. rewrite Hq.
  destruct (attr_module rt obj) as [[]|]; simplify_eq;
    unfold lookup_in_module; by rewrite Hmodule.
Qed.

(** An object with a qualified name [owner.leaf] resolves to the attribute
    [owner] of its module, or raises [AttributeError] with that name; the
    lookup is by one name, so when [owner] is itself dotted, as for the
    members of a nested class, and the module's attributes are plain names,
    it always raises. *)
Theorem get_parent_class_member rt obj owner leaf m module :
  attr_qualname rt obj = Some (owner +:+ "." +:+ leaf) →
  lacks "<" owner = true → lacks "<" leaf = true → lacks "." leaf = true →
  owning_module rt obj = Some m → sys_modules rt !! m = Some module →
  get_parent_class rt obj
  = match module !! owner with
    | Some parent => Ok parent
    | None => Raise (AttributeError owner)
    end ∧
  (map_Forall (fun name _ => lacks "." name = true) module →
   lacks "." owner = false →
   get_parent_class rt obj = Raise (AttributeError owner)).
Proof.
  intros Hq Howner Hleaf Hdot Hm Hmodule.
  assert (class_name_of (owner +:+ "." +:+ leaf) = owner) as Hname.
  { unfold class_name_of, rsplit_head.
    rewrite split_head_locals_lacks, before_last_dot_app; [done..|].
    by rewrite !lacks_app, Howner, Hleaf. }
  pose proof (get_parent_class_qualname _ _ _ _ _ Hq Hm Hmodule) as Hget.
  rewrite Hname in Hget.
  split; [done|]. intros Hplain Hdotted. rewrite Hget.
  destruct (module !! owner) as [parent|] eqn:Hparent; [|done].
  apply Hplain in Hparent. simpl in Hparent. congruence.
Qed.

Lemma get_parent_class_member_witness :
  get_parent_class demo (PFunc (Some "app") "Person.greet" "greet")
  = Ok (PClass Person_cid) ∧
  get_parent_class demo (PFunc None "list.append" "append")
  = Ok (PClass list_cid) ∧
  get_parent_class demo (PFunc (Some "app") "Outer.Inner.meth" "meth")
  = Raise (AttributeError "Outer.Inner").
Proof.
  pose (app := default ∅ (sys_modules demo !! "app")).
  pose (builtins := default ∅ (sys_modules demo !! "builtins")).
  assert (sys_modules demo !! "app" = Some app) as Happ
    by (vm_compute; reflexivity).
  assert (sys_modules demo !! "builtins" = Some builtins) as Hbuiltins
    by (vm_compute; reflexivity).
  split; [|split].
  - rewrite (proj1 (get_parent_class_member demo
                      (PFunc (Some "app") "Person.greet" "greet") "Person" "greet"
                      "app" app eq_refl eq_refl eq_refl eq_refl eq_refl Happ)).
    vm_compute. reflexivity.
  - rewrite (proj1 (get_parent_class_member demo
                      (PFunc None "list.append" "append") "list" "append"
                      "builtins" builtins eq_refl eq_refl eq_refl eq_refl eq_refl
                      Hbuiltins)).
    vm_compute. reflexivity.
  - apply (proj2 (get_parent_class_member demo
                    (PFunc (Some "app") "Outer.Inner.meth" "meth")
                    "Outer.Inner" "meth"
                    "app" app eq_refl eq_refl eq_refl eq_refl eq_refl Happ)).
    + by_deciding.
    + reflexivity.
Defined.

(** What [get_parent_class] returns need not be a class.  For an object
    bound in its module under its own undotted name, as a top-level function
    or class is, it returns the object itself; for a function defined inside
    a top-level function it returns that enclosing function. *)
Theorem get_parent_class_top_level rt obj m module :
  owning_module rt obj = Some m → sys_modules rt !! m = Some module →
  (∀ q, attr_qualname rt obj = Some q → lacks "." q = true →
        module !! q = Some obj → get_parent_class rt obj = Ok obj) ∧
  (∀ outer rest enclosing,
     attr_qualname rt obj = Some (outer +:+ ".<locals>" +:+ rest) →
     lacks "." outer = true → lacks "<" outer = true →
     module !! outer = Some enclosing →
     get_parent_class rt obj = Ok enclosing).
Proof.
  intros Hm Hmodule. split.
  - intros q Hq Hplain Hbound.
    rewrite (get_parent_class_qualname _ _ _ _ _ Hq Hm Hmodule).
    unfold class_name_of, rsplit_head.
    rewrite split_head_locals_none, before_last_dot_none by done.
    simpl. by rewrite Hbound.
  - intros outer rest enclosing Hq Hplain Hangle Hbound.
    rewrite (get_parent_class_qualname _ _ _ _ _ Hq Hm Hmodule).
    unfold class_name_of, rsplit_head.
    rewrite split_head_locals_app, before_last_dot_none by done.
    simpl. by rewrite Hbound.
Qed.

Lemma get_parent_class_top_level_witness :
  let extend := PFunc (Some this_module) "extend_class" "extend_class" in
  get_parent_class demo extend = Ok extend ∧
  get_parent_class demo (PClass Person_cid) = Ok (PClass Person_cid) ∧
  get_parent_class demo (PFunc (Some this_module) "extend_class.<locals>.helper" "helper")
  = Ok extend.
Proof.
  intros extend.
  pose (own := default ∅ (sys_modules demo !! this_module)).
  pose (app := default ∅ (sys_modules demo !! "app")).
  assert (sys_modules demo !! this_module = Some own) as Hown
    by (vm_compute; reflexivity).
  assert (sys_modules demo !! "app" = Some app) as Happ
    by (vm_compute; reflexivity).
  split; [|split].
  - apply (proj1 (get_parent_class_top_level demo extend this_module own
                    eq_refl Hown) "extend_class");
      [reflexivity | reflexivity |].
    vm_compute. reflexivity.
  - apply (proj1 (get_parent_class_top_level demo (PClass Person_cid) "app" app
                    eq_refl Happ) "Person");
      [reflexivity | reflexivity |].
    vm_compute. reflexivity.
  - apply (proj2 (get_parent_class_top_level demo
                    (PFunc (Some this_module) "extend_class.<locals>.helper" "helper")
                    this_module own eq_refl Hown)
             "extend_class" ".helper" extend);
      [reflexivity | reflexivity | reflexivity |].
    vm_compute. reflexivity.
Defined.

(** An instance of a class made by a class statement inherits [__module__]
    from its class and has no [__qualname__], so [get_parent_class] raises on
    it: [KeyError] when the module is not loaded, [AttributeError] otherwise.
    [wrap_object], which starts there, therefore never returns on such an
    instance, whatever the mixins and keywords, and creates no class. *)
Theorem wrap_object_instance_raises rt c items m below :
  c_mro (class_at rt c) = c :: below →
  c_heap (class_at rt c) = true → c_module (class_at rt c) = Some (PStr m) →
  get_parent_class rt (PInst c items)
  = Raise (match sys_modules rt !! m with
           | Some _ => AttributeError "__qualname__"
           | None => KeyError m
           end) ∧
  ∀ construct mixins kwargs,
    ∃ e, wrap_object construct rt (PInst c items) mixins kwargs = (rt, Raise e).
Proof.
  intros Hmro Hheap Hmodule.
  assert (attr_module rt (PInst c items) = Some (PStr m)) as Hattr.
  { unfold attr_module. rewrite Hmro. simpl. by rewrite Hheap, Hmodule. }
  pose proof (get_parent_class_instance rt c items m Hattr) as Hget.
  split; [done|]. intros construct mixins kwargs. unfold wrap_object.
  destruct (existsb _ kwargs); [eauto|]. rewrite Hget. eauto.
Qed.

Lemma wrap_object_instance_raises_witness :
  get_parent_class demo (PInst Person_cid None)
  = Raise (AttributeError "__qualname__") ∧
  ∀ construct mixins kwargs,
    ∃ e, wrap_object construct demo (PInst Person_cid None) mixins kwargs
         = (demo, Raise e).
Proof.
  assert (sys_modules demo !! "app" = Some (default ∅ (sys_modules demo !! "app")))
    as Happ by (vm_compute; reflexivity).
  pose proof (wrap_object_instance_raises demo Person_cid None "app" [object_cid]
                eq_refl eq_refl eq_refl) as [Hget Hwrap].
  rewrite Happ in Hget. by split.
Defined.

(** ** More on the relaxed [isinstance] *)

(** On a tuple of types, and on a class other than [typing.Generic], the
    module's [isinstance] is [builtins.isinstance], answer or exception; and
    a list of types is treated as the built-in treats the tuple of the same
    types. *)
Theorem isinstance_as_builtin rt obj :
  (∀ ts, isinstance rt obj (TTuple ts) = builtin_isinstance rt obj (TTuple ts)) ∧
  (∀ ts, isinstance rt obj (TList ts) = builtin_isinstance rt obj (TTuple ts)) ∧
  (∀ c, c ≠ Generic_cid →
        isinstance rt obj (TClass c) = builtin_isinstance rt obj (TClass c)).
Proof.
  split; [|split].
  - intros ts. by rewrite builtin_isinstance_tuple.
  - intros ts. by rewrite builtin_isinstance_tuple.
  - intros c Hc%Nat.eqb_neq. unfold isinstance, get_origin. by rewrite Hc.
Qed.

Lemma isinstance_as_builtin_witness :
  isinstance demo (PInt 1) (TList [TClass str_cid; TTuple [TClass int_cid]])
  = builtin_isinstance demo (PInt 1) (TTuple [TClass str_cid; TTuple [TClass int_cid]]) ∧
  isinstance demo (PInt 1) (TClass int_cid)
  = builtin_isinstance demo (PInt 1) (TClass int_cid).
Proof.
  split.
  - apply (proj1 (proj2 (isinstance_as_builtin demo (PInt 1)))).
  - apply (proj2 (proj2 (isinstance_as_builtin demo (PInt 1)))). discriminate.
Defined.

(** Against [origin[args]], type parameters past the last element of the
    value are never consulted: they can be dropped, even those the built-in
    check would refuse. *)
Theorem isinstance_spare_parameters rt obj origin args spare items :
  is_Union origin = false → iter obj = Some items → length items ≤ length args →
  isinstance rt obj (TSubscript origin (args ++ spare))
  = isinstance rt obj (TSubscript origin args).
Proof.
  intros Horigin Hitems Hlen. unfold isinstance. simpl.
  rewrite Horigin, Hitems.
  destruct (builtin_isinstance rt obj origin) as [[|]|e]; simpl; try done.
  f_equal.
  rewrite <- (zip_with_take_r _ items (args ++ spare)).
  rewrite <- (zip_with_take_r _ items args).
  by rewrite take_app_le.
Qed.

Lemma isinstance_spare_parameters_witness :
  let list_of_int := TSubscript (TClass list_cid) [TClass int_cid] in
  isinstance demo (PTuple [PInt 1]) (TSubscript (TClass tuple_cid) [TClass int_cid; list_of_int])
  = Ok true.
Proof.
  refine (eq_trans
            (isinstance_spare_parameters demo (PTuple [PInt 1]) (TClass tuple_cid)
               [TClass int_cid] [TSubscript (TClass list_cid) [TClass int_cid]]
               [PInt 1] eq_refl eq_refl _) _).
  - simpl. lia.
  - reflexivity.
Defined.

Lemma any_r_ext {A} (f g : A → result bool) (l : list A) :
  (∀ x, f x = g x) → any_r f l = any_r g l.
Proof.
  intros Hfg. induction l as [|a l IH]; simpl; [done|]. by rewrite Hfg, IH.
Qed.

(** The relaxed check sees of an object its class and what iterating it
    yields, nothing else. *)
Lemma isinstance_type_of_iter rt o o' typ :
  type_of o = type_of o' → iter o = iter o' →
  isinstance rt o typ = isinstance rt o' typ.
Proof.
  intros Hty Hiter. unfold isinstance.
  pose proof (builtin_isinstance_type_of rt o o' Hty) as Hb.
  destruct typ as [c|name|ts|ts|origin args|origin|args|];
    try (by apply any_r_ext); try apply Hb.
  all: destruct (get_origin _) as [o1|]; [|apply Hb].
  all: rewrite Hb, Hiter; destruct (is_Union o1); [by apply any_r_ext | done].
Qed.

(** Of a dict only the keys are examined: two dicts with the same keys in
    the same order get the same answer against every specification, whatever
    their values. *)
Theorem isinstance_dict_keys rt kvs kvs' typ :
  kvs.*1 = kvs'.*1 →
  isinstance rt (PDict kvs) typ = isinstance rt (PDict kvs') typ.
Proof.
  intros Hkeys. apply isinstance_type_of_iter; [done|]. simpl. f_equal.
  assert (∀ l : list (string * pyobj),
            map (fun kv => PStr kv.1) l = PStr <$> l.*1) as Hmap
    by (intros l; induction l as [|kv l IH]; simpl; [done | by rewrite IH]).
  by rewrite !Hmap, Hkeys.
Qed.

Lemma isinstance_dict_keys_witness :
  let dict_str_int := TSubscript (TClass dict_cid) [TClass str_cid; TClass int_cid] in
  isinstance demo (PDict [("a", PStr "one")]) dict_str_int
  = isinstance demo (PDict [("a", PInt 1)]) dict_str_int.
Proof. apply (isinstance_dict_keys demo [("a", PStr "one")] [("a", PInt 1)]). reflexivity. Defined.

(** ** The class [extend_class] creates *)

(** A successful merge loses nothing: every member of every sequence is in
    the result. *)
Lemma merge_covers fuel :
  ∀ seqs l, merge fuel seqs = Some l →
            ∀ s x, s ∈ seqs → x ∈ s → x ∈ l.
Proof.
  induction fuel as [|fuel IH]; intros seqs l; simpl; [discriminate|].
  intros Hmerge s x Hs Hx.
  assert (s ∈ List.filter nonempty seqs) as Hlive.
  { apply list_elem_of_In, filter_In. split; [by apply list_elem_of_In|].
    destruct s; [by apply elem_of_nil in Hx | done]. }
  revert Hmerge.
  destruct (List.filter nonempty seqs) as [|s0 live]; [by apply elem_of_nil in Hlive|].
  destruct (next_head (s0 :: live)) as [h|]; [|discriminate].
  change (drop_head h s0 :: map (drop_head h) live)
    with (map (drop_head h) (s0 :: live)).
  destruct (merge fuel (map (drop_head h) (s0 :: live))) as [l'|] eqn:Hrest;
    simpl; [|discriminate].
  intros [= <-].
  assert (drop_head h s ∈ map (drop_head h) (s0 :: live)) as Hdrop
    by (apply list_elem_of_fmap; eauto).
  destruct s as [|y s']; [by apply elem_of_nil in Hx|].
  simpl in Hdrop. destruct (y =? h) eqn:Hy.
  - apply Nat.eqb_eq in Hy as ->.
    apply elem_of_cons in Hx as [->|Hx]; [left | right; by eapply IH].
  - right. by eapply IH.
Qed.

(** The resolution order of a new class holds its bases and everything the
    bases derive from. *)
Lemma linearize_covers rt bases below :
  linearize rt bases = Some below →
  (∀ b, b ∈ bases → b ∈ below) ∧
  (∀ b a, b ∈ bases → a ∈ c_mro (class_at rt b) → a ∈ below).
Proof.
  unfold linearize. intros Hmerge. split.
  - intros b Hb. eapply merge_covers; [done | | done].
    apply elem_of_app. right. by apply list_elem_of_singleton.
  - intros b a Hb Ha. eapply merge_covers; [done | | done].
    apply elem_of_app. left. apply list_elem_of_fmap. eauto.
Qed.

(** What a creating call returns, taken apart. *)
Lemma extend_class_created rt c ms attrs rt' k :
  extend_class rt (PClass c) ms attrs = Ok (rt', k) → rt' ≠ rt →
  ∃ kvs below,
    attrs_or_empty attrs = PDict kvs ∧
    linearize rt (ms ++ [c]) = Some below ∧
    generic_hook (ms ++ [c]) below kvs = None ∧ k = length (classes rt) ∧
    rt' = allocate rt (new_class k (extension_name rt c ms) (ms ++ [c]) below kvs).
Proof.
  rewrite extend_class_class.
  destruct (issubclass rt c ms); [by intros [= <- <-]|].
  destruct (classes_in_frame rt !! extension_name rt c ms);
    [by intros [= <- <-]|].
  intros (kvs & below & ? & _ & _ & _ & ? & ? & ? & ?)%type_new_Ok _.
  by exists kvs, below.
Qed.

(** The class a call creates derives from itself, from every mixin, from the
    base, and from every class any of these derived from when the call was
    made: it is what the docstring announces, a class that includes the
    mixins. *)
Theorem extend_class_result_derives rt c ms attrs rt' k :
  extend_class rt (PClass c) ms attrs = Ok (rt', k) → rt' ≠ rt →
  (∀ b, b ∈ k :: ms ++ [c] → issubclass1 rt' k b = true) ∧
  (∀ b a, b ∈ ms ++ [c] → issubclass1 rt b a = true → issubclass1 rt' k a = true).
Proof.
  intros Hcall Hnew.
  destruct (extend_class_created _ _ _ _ _ _ Hcall Hnew)
    as (kvs & below & _ & Hlin & _ & -> & ->).
  apply linearize_covers in Hlin as [Hbases Hancestors].
  unfold issubclass1. rewrite class_at_allocate_new. simpl. split.
  - intros b [->|Hb]%elem_of_cons; apply bool_decide_eq_true; [left|].
    right. by apply Hbases.
  - intros b a Hb Ha%bool_decide_eq_true. apply bool_decide_eq_true.
    right. by eapply Hancestors.
Qed.

Lemma extend_class_result_derives_witness :
  issubclass1 demo_extended 18 Greeter_cid = true ∧
  issubclass1 demo_extended 18 Person_cid = true ∧
  issubclass1 demo_extended 18 object_cid = true.
Proof.
  destruct (extend_class_result_derives demo Person_cid [Greeter_cid] PNone
              demo_extended 18 ltac:(vm_compute; reflexivity)
              ltac:(intros Heq%(f_equal (fun r => length (classes r)));
                    vm_compute in Heq; lia)) as [Hbases Hancestors].
  split; [|split].
  - apply Hbases. right. left.
  - apply Hbases. right. right. left.
  - apply (Hancestors Person_cid); [right; left | reflexivity].
Defined.

(** Extending what a call created with the same mixins again returns it as
    it is, and creates nothing. *)
Theorem extend_class_again rt c ms attrs attrs' rt' k :
  extend_class rt (PClass c) ms attrs = Ok (rt', k) → rt' ≠ rt → ms ≠ [] →
  extend_class rt' (PClass k) ms attrs' = Ok (rt', k).
Proof.
  intros Hcall Hnew Hms.
  destruct (extend_class_created _ _ _ _ _ _ Hcall Hnew)
    as (kvs & below & _ & Hlin & _ & -> & ->).
  apply linearize_covers in Hlin as [Hbases _].
  rewrite extend_class_class.
  destruct ms as [|m ms]; [done|]. unfold issubclass. simpl.
  replace (issubclass1 _ _ m) with true; [done|].
  symmetry. unfold issubclass1. rewrite class_at_allocate_new. simpl.
  apply bool_decide_eq_true. right. apply Hbases. left.
Qed.

Lemma extend_class_again_witness :
  extend_class demo_extended (PClass 18) [Greeter_cid] PNone = Ok (demo_extended, 18).
Proof.
  apply (extend_class_again demo Person_cid [Greeter_cid] PNone PNone demo_extended 18).
  - vm_compute. reflexivity.
  - intros Heq%(f_equal (fun r => length (classes r))). vm_compute in Heq. lia.
  - done.
Defined.

(** ** Composite names *)

Lemma to_lower_cased c : is_cased (to_lower c) = is_cased c.
Proof. by destruct c as [[] [] [] [] [] [] [] []]. Qed.

Lemma to_upper_lower c : to_upper (to_lower c) = to_upper c.
Proof. by destruct c as [[] [] [] [] [] [] [] []]. Qed.

(** Title case does not see the case of the letters it is given. *)
Lemma title_from_lower b s s' : lower s = lower s' → title_from b s = title_from b s'.
Proof.
  revert b s'. induction s as [|c s IH]; intros b [|c' s']; simpl; try done.
  intros [= Hc Hs].
  assert (is_cased c = is_cased c') as Hcased
    by (rewrite <- (to_lower_cased c), Hc; apply to_lower_cased).
  assert (to_upper c = to_upper c') as Hupper
    by (rewrite <- (to_upper_lower c), Hc; apply to_upper_lower).
  rewrite Hcased, (IH _ s' Hs). by destruct b; [rewrite Hc | rewrite Hupper].
Qed.

(** The composite name does not depend on the case of the letters in the
    names of the base and the mixins: requests on classes whose names differ
    in case only get one and the same composite name. *)
Theorem extension_name_ignores_case rt c ms rt' c' ms' :
  lower (c_name (class_at rt c)) = lower (c_name (class_at rt' c')) →
  Forall2 (fun m m' => lower (c_name (class_at rt m)) = lower (c_name (class_at rt' m')))
          ms ms' →
  extension_name rt c ms = extension_name rt' c' ms'.
Proof.
  intros Hc Hms. unfold extension_name, title.
  rewrite (title_from_lower _ _ _ Hc). f_equal.
  induction Hms as [|m m' ms ms' Hm _ IH]; simpl; [done|].
  by rewrite (title_from_lower _ _ _ Hm), IH.
Qed.

Lemma extension_name_ignores_case_witness :
  let shouting := allocate demo (user_class "app" "PERSON" 18 [object_cid] [object_cid]) in
  extension_name demo Person_cid [Greeter_cid] = extension_name shouting 18 [Greeter_cid].
Proof.
  apply (extension_name_ignores_case demo Person_cid [Greeter_cid]).
  - reflexivity.
  - by repeat constructor.
Defined.

(** ** Composites seen by the other functions *)

(** An instance of a class that [extend_class] created, the attributes
    naming no module, is labelled by [class_path] with the module
    [Pypable.typing] and the composite name, wherever the base and the mixins
    were defined. *)
Theorem class_path_of_composite rt c ms attrs rt' k kvs items :
  extend_class rt (PClass c) ms attrs = Ok (rt', k) → rt' ≠ rt →
  attrs_or_empty attrs = PDict kvs → dict_get kvs "__module__" = None →
  class_path rt' (PInst k items)
  = Ok (this_module +:+ "." +:+ extension_name rt c ms).
Proof.
  intros Hcall Hnew Hattrs Hmodule.
  destruct (extend_class_created _ _ _ _ _ _ Hcall Hnew)
    as (kvs' & below & Hattrs' & _ & _ & -> & ->).
  assert (kvs' = kvs) as -> by congruence.
  unfold class_path. simpl. rewrite class_at_allocate_new. simpl.
  by rewrite Hmodule.
Qed.

Lemma class_path_of_composite_witness :
  class_path demo_extended (PInst 18 None) = Ok "Pypable.typing.GreeterPerson".
Proof.
  apply (class_path_of_composite demo Person_cid [Greeter_cid] PNone
           demo_extended 18 [] None).
  - vm_compute. reflexivity.
  - intros Heq%(f_equal (fun r => length (classes r))). vm_compute in Heq. lia.
  - reflexivity.
  - reflexivity.
Defined.

(** Wrapping an object that has neither [__module__] nor [__qualname__],
    such as a number or a string, without keywords: when [extend_class]
    creates the composite of the object's class and the constructor gives an
    instance of it, that instance is what [wrap_object] returns, and the
    relaxed [isinstance] accepts it for every mixin and for the class the
    object had. *)
Theorem wrap_object_instance_of_mixins construct rt obj ms rt' k wrapped :
  attr_module rt obj = None → attr_qualname rt obj = None →
  extend_class rt (PClass (type_of obj)) ms PNone = Ok (rt', k) → rt' ≠ rt →
  construct rt' k obj = Ok wrapped → type_of wrapped = k →
  wrap_object construct rt obj ms [] = (rt', Ok wrapped) ∧
  ∀ b, b ∈ ms ++ [type_of obj] → isinstance rt' wrapped (TClass b) = Ok true.
Proof.
  intros Hmodule Hqualname Hcall Hnew Hconstruct Hty. split.
  - unfold wrap_object, get_parent_class. simpl.
    by rewrite Hmodule, Hqualname, Hcall, Hconstruct.
  - intros b Hb.
    destruct (extend_class_created _ _ _ _ _ _ Hcall Hnew)
      as (kvs & below & [= <-] & Hlin & Hhook & -> & ->).
    apply linearize_covers in Hlin as [Hbases _].
    assert ((b =? Generic_cid) = false) as Hplain.
    { apply Nat.eqb_neq. intros ->. unfold generic_hook in Hhook.
      rewrite bool_decide_eq_true_2 in Hhook by (by apply Hbases).
      simpl in Hhook. by rewrite bool_decide_eq_true_2 in Hhook. }
    unfold isinstance, get_origin. rewrite Hplain. simpl. rewrite Hty. f_equal.
    unfold issubclass1. rewrite class_at_allocate_new. simpl.
    apply bool_decide_eq_true. right. by apply Hbases.
Qed.

Lemma wrap_object_instance_of_mixins_witness :
  let composite := new_class 18 "GreeterInt" [Greeter_cid; int_cid]
                             [Greeter_cid; int_cid; object_cid] [] in
  wrap_object plain_construct demo (PInt 5) [Greeter_cid] []
  = (allocate demo composite, Ok (PInst 18 None)) ∧
  ∀ b, b ∈ [Greeter_cid; int_cid] →
       isinstance (allocate demo composite) (PInst 18 None) (TClass b) = Ok true.
Proof.
  intros composite.
  apply (wrap_object_instance_of_mixins plain_construct demo (PInt 5) [Greeter_cid]
           (allocate demo composite) 18 (PInst 18 None)).
  - reflexivity.
  - reflexivity.
  - vm_compute. reflexivity.
  - intros Heq%(f_equal (fun r => length (classes r))). vm_compute in Heq. lia.
  - reflexivity.
  - reflexivity.
Defined.

Lemma extension_name_alphabetic_witness :
  extension_name demo Person_cid [Greeter_cid; Logger_cid]
  = capitalized_name demo Person_cid [Greeter_cid; Logger_cid].
Proof. apply extension_name_alphabetic. by repeat constructor. Defined.
